(** * Calamares [mount] module: a shallow embedding and its properties

    The development follows [src/usr/lib/calamares/modules/mount/main.py].
    Python strings are modelled as [string] holding the UTF-8 bytes of the
    text; byte-wise lexicographic comparison of UTF-8 coincides with Python's
    code-point comparison, so sorting is modelled with [String.leb].
    Dicts with a fixed set of keys are records whose optional keys are
    [option] fields; the published part of global storage is a [gmap]. *)

From Stdlib Require Import ZArith Lia Ascii String List Bool.
From stdpp Require Import base option list strings gmap sorting.

Local Open Scope string_scope.
Local Open Scope Z_scope.

(** ** Python exceptions and results *)

Inductive exn : Type :=
| Exception (message : string)
| ZfsException (message : string)
| CalledProcessError (argv : list string) (returncode : Z)
| OSError (path : string)
| KeyError (key : string)
| UnboundLocalError (name : string).

Inductive result (A : Type) : Type :=
| Ok (a : A)
| Raise (e : exn).
Arguments Ok {A} a.
Arguments Raise {A} e.

(** ** String helpers standing for the Python built-ins the module uses *)

(** [s.startswith(pre)] *)
Definition startswith (s pre : string) : bool := String.prefix pre s.

(** [sep.join(items)] *)
Definition join (sep : string) (items : list string) : string :=
  String.concat sep items.

Definition is_slash (c : ascii) : bool := Ascii.eqb c "/"%char.

Fixpoint has_slash (s : string) : bool :=
  match s with
  | EmptyString => false
  | String c r => is_slash c || has_slash r
  end.

(** [os.path.basename(p)]: what follows the last slash. *)
Fixpoint basename (s : string) : string :=
  match s with
  | EmptyString => EmptyString
  | String c r =>
      if has_slash r then basename r
      else if is_slash c then r else s
  end.

(** [posixpath.join(a, b)] for one further component. *)
Definition path_join2 (path b : string) : string :=
  if startswith b "/" then b
  else if (path =? "")%string || is_slash (List.last (list_ascii_of_string path) "a"%char)
       then path ++ b
       else path ++ "/" ++ b.

(** [os.path.join(a, *p)] *)
Definition path_join (a : string) (p : list string) : string :=
  fold_left path_join2 p a.

(** The class [[0-9]] of the regular expressions in
    [disk_name_for_partition]. *)
Definition is_digit (c : ascii) : bool :=
  let n := nat_of_ascii c in (48 <=? n)%nat && (n <=? 57)%nat.

Fixpoint drop_while_digit (l : list ascii) : list ascii :=
  match l with
  | c :: r => if is_digit c then drop_while_digit r else l
  | [] => []
  end.

(** Removal of the match of [[0-9]+$] (when [with_p] is false) or of
    [p[0-9]+$] (when it is true) from a text in which [$] stands for the
    very end; [rl] is the text reversed. *)
Definition strip_suffix_rev (with_p : bool) (rl : list ascii) : list ascii :=
  let rest := drop_while_digit rl in
  if (length rest =? length rl)%nat then rl
  else if with_p then
         match rest with
         | c :: rest' => if Ascii.eqb c "p"%char then rest' else rl
         | [] => rl
         end
       else rest.

(** [re.sub("[0-9]+$", "", name)] and [re.sub("p[0-9]+$", "", name)].
    Python's [$] also matches just before a newline that ends the text. *)
Definition re_sub_suffix (with_p : bool) (name : string) : string :=
  let rl := rev (list_ascii_of_string name) in
  match rl with
  | c :: body =>
      if Ascii.eqb c "010"%char
      then string_of_list_ascii (rev (c :: strip_suffix_rev with_p body))
      else string_of_list_ascii (rev (strip_suffix_rev with_p rl))
  | [] => name
  end.

Definition lower_ascii (c : ascii) : ascii :=
  let n := nat_of_ascii c in
  if (65 <=? n)%nat && (n <=? 90)%nat then ascii_of_nat (n + 32) else c.

(** [s.lower()], on the ASCII letters; filesystem kinds are ASCII names. *)
Fixpoint lower (s : string) : string :=
  match s with
  | EmptyString => EmptyString
  | String c r => String (lower_ascii c) (lower r)
  end.

(** [x in [a, b, ...]] on strings *)
Definition str_in (x : string) (l : list string) : bool :=
  existsb (String.eqb x) l.

(** Truth value of a value that is [None] or a string. *)
Definition truthy (o : option string) : bool :=
  match o with
  | Some s => negb (s =? "")%string
  | None => false
  end.

(** ** Data model *)

(** A partition, or an extra mount, as the partitioning module and the job
    configuration hand it over. *)
Record Partition : Type := {
  device : option string;
  fs : option string;
  mountPoint : option string;
  options : option (list string);
  luksMapperName : option string;
  claimed : option bool;
  fsName : option string;
  efi : option bool
}.

(** One entry of [mountOptions] in the job configuration. *)
Record MountOptionRule : Type := {
  filesystem : string;
  rule_options : option (list string);
  ssdOptions : option (list string);
  nvmeOptions : option (list string);
  hddOptions : option (list string)
}.

(** One entry of [btrfsSubvolumes]. *)
Record Subvolume : Type := {
  sv_mountPoint : string;
  subvolume : string
}.

(** One entry of [mountOptionsList]. *)
Record MountOptionEntry : Type := {
  mountpoint : string;
  option_string : string
}.

(** [d.get(key, [])] for a list-valued key *)
Definition get_list (o : option (list string)) : list string :=
  default [] o.

(** ** The operating system as the module sees it

    Every outcome that the module obtains from outside is a field of [Env];
    each may depend on the external actions performed so far. *)

Inductive Event : Type :=
| EvMount (dev target fstype opts : string) (rc : Z)
| EvCmd (argv : list string) (rc : Z)
| EvMakedirs (path : string) (ok : bool)
| EvChmod (path : string) (ok : bool)
| EvTempDir (path : string)
| EvTempDirCleanup (path : string).

Record Env : Type := {
  (** content of a file, [None] when opening or reading it raises *)
  read_file : string -> option string;
  (** [libcalamares.utils.mount]: the status it returns *)
  mount_rc : list Event -> string -> string -> string -> string -> Z;
  (** exit status of an external command *)
  cmd_rc : list Event -> list string -> Z;
  (** [os.path.ismount] *)
  ismount : list Event -> string -> bool;
  (** [os.path.exists] *)
  path_exists : list Event -> string -> bool;
  (** whether [os.makedirs(path, exist_ok=True)] returns normally *)
  makedirs_ok : list Event -> string -> bool;
  (** whether [os.chmod] returns normally *)
  chmod_ok : list Event -> string -> bool;
  (** the directory [tempfile] creates for a prefix *)
  temp_dir : list Event -> string -> string;
  (** [str(e)] for an exception the interpreter or a library raised *)
  str_builtin : exn -> string
}.

(** ** Mount option resolver *)

Definition disk_name_for_partition (partition : Partition) : result string :=
  match device partition with
  | None => Raise (KeyError "device")
  | Some d =>
      let name := basename d in
      if startswith name "mmcblk" || startswith name "nvme"
      then Ok (re_sub_suffix true name)
      else Ok (re_sub_suffix false name)
  end.

Definition is_ssd_disk (env : Env) (partition : Partition) : bool :=
  match disk_name_for_partition partition with
  | Ok disk_name =>
      let filename := path_join "/sys/block" [disk_name; "queue/rotational"] in
      match read_file env filename with
      | Some content => (content =? String "0" (String "010" ""))%string
      | None => false
      end
  | Raise _ => false
  end.

(** [next((x for x in mount_options if x["filesystem"] == kind), None)] *)
Definition find_rule (mount_options : list MountOptionRule) (kind : string)
  : option MountOptionRule :=
  find (fun x => (filesystem x =? kind)%string) mount_options.

(** The device-class additions, lines 115-122. *)
Definition device_class_options (env : Env) (rule : MountOptionRule)
    (partition : Partition) : list string :=
  if is_ssd_disk env partition then
    let name := basename (default "" (device partition)) in
    if startswith name "nvme" then get_list (nvmeOptions rule)
    else get_list (ssdOptions rule)
  else get_list (hddOptions rule).

Definition get_mount_options (env : Env) (filesystem_kind : string)
    (mount_options : option (list MountOptionRule)) (partition : Partition)
    (efi_location : option string) : result string :=
  match options partition with
  | Some l => Ok (join "," l)
  | None =>
    match mount_options with
    | None => Ok "defaults"
    | Some rules =>
      let with_kind (effective_filesystem : string) : result string :=
        let found :=
          match find_rule rules effective_filesystem with
          | Some r => Some r
          | None => find_rule rules "default"
          end in
        match found with
        | None => Ok "defaults"
        | Some rule =>
            let option_items :=
              (get_list (rule_options rule)
               ++ device_class_options env rule partition)%list in
            match option_items with
            | [] => Ok "defaults"
            | _ => Ok (join "," option_items)
            end
        end in
      if truthy efi_location then
        match mountPoint partition with
        | None => Raise (KeyError "mountPoint")
        | Some mp =>
            if (mp =? default "" efi_location)%string then with_kind "efi"
            else with_kind filesystem_kind
        end
      else with_kind filesystem_kind
    end
  end.

(** ** Sorting as Python's [sorted] and [list.sort] do it *)

(** [sorted(l, reverse=True)] on strings: descending, by insertion. *)
Fixpoint insert_desc (x : string) (l : list string) : list string :=
  match l with
  | [] => [x]
  | y :: r => if String.leb y x then x :: l else y :: insert_desc x r
  end.

Definition sorted_reverse (l : list string) : list string :=
  foldr insert_desc [] l.

Section SortByKey.
Context {A : Type} (key : A -> string).

(** An element taken from further left goes before the elements of equal
    key already placed, which keeps the sort stable as [list.sort] is. *)
Fixpoint insert_by_key (x : A) (l : list A) : list A :=
  match l with
  | [] => [x]
  | y :: r =>
      if String.leb (key x) (key y) then x :: l else y :: insert_by_key x r
  end.

(** [l.sort(key=key)] *)
Definition sort_by_key (l : list A) : list A :=
  foldr insert_by_key [] l.
End SortByKey.

(** ** Inputs read from the job configuration and from global storage *)

Record PartitionChoices : Type := { swap : option string }.

Record ZfsPoolInfo : Type := {
  zp_mountpoint : string;
  poolName : string;
  dsName : string
}.

Record ZfsInfo : Type := {
  zi_mountpoint : string;
  encrypted : bool;
  passphrase : string
}.

(** The value of [canMount]: a string such as ["noauto"], or a boolean. *)
Inductive CanMount : Type :=
| CanMountStr (s : string)
| CanMountBool (b : bool).

Record ZfsDataset : Type := {
  zd_mountpoint : string;
  canMount : CanMount;
  zpool : string;
  zd_dsName : string
}.

Record Inputs : Type := {
  cfg_btrfsSubvolumes : option (list Subvolume);
  cfg_btrfsSwapSubvol : option string;
  cfg_mountOptions : option (list MountOptionRule);
  cfg_extraMounts : option (list Partition);
  gs_partitions : option (list Partition);
  gs_partitionChoices : option PartitionChoices;
  gs_zfsPoolInfo : option (list ZfsPoolInfo);
  gs_zfsInfo : option (list ZfsInfo);
  gs_zfsDatasets : option (list ZfsDataset);
  gs_firmwareType : option string;
  gs_efiSystemPartition : option string
}.

(** What the module publishes with [globalstorage.insert]. *)
Inductive GSValue : Type :=
| GSString (s : string)
| GSOptionsList (l : list MountOptionEntry)
| GSPartitions (l : list Partition)
| GSSubvolumes (l : list Subvolume).

(** ** Btrfs subvolume planner *)

Definition default_btrfs_subvolumes : list Subvolume :=
  [ {| sv_mountPoint := "/"; subvolume := "/@" |};
    {| sv_mountPoint := "/home"; subvolume := "/@home" |} ].

(** Lines 141-147: the configured layout, or the default one when the
    configuration is missing or empty. *)
Definition effective_btrfs_subvolumes (inp : Inputs) : list Subvolume :=
  match cfg_btrfsSubvolumes inp with
  | None | Some [] => default_btrfs_subvolumes
  | Some l => l
  end.

(** Lines 150-151 *)
Definition non_root_partition_mounts (partitions : list Partition)
  : list string :=
  omap (fun p =>
          match mountPoint p with
          | Some m => if (m =? "/")%string then None else Some m
          | None => None
          end) partitions.

(** The condition of the inner [any(...)], lines 157-158. *)
Definition covered_by (mp m : string) : bool :=
  negb (m =? "")%string && ((mp =? m)%string || startswith mp (m ++ "/")).

(** The filter condition of lines 156-159. *)
Definition keep_subvolume (mounts : list string) (s : Subvolume) : bool :=
  (sv_mountPoint s =? "/")%string
  || negb (existsb (covered_by (sv_mountPoint s)) mounts).

(** Lines 154-160 *)
Definition filter_btrfs_subvolumes (subvolumes : list Subvolume)
    (partitions : list Partition) : list Subvolume :=
  filter (fun s => keep_subvolume (non_root_partition_mounts partitions) s)
         subvolumes.

(** Lines 163-164: whether a swap file was chosen. *)
Definition swap_is_file (inp : Inputs) : bool :=
  match gs_partitionChoices inp with
  | Some c => match swap c with
              | Some v => (v =? "file")%string
              | None => false
              end
  | None => false
  end.

Definition swap_subvol_name (inp : Inputs) : string :=
  default "/@swap" (cfg_btrfsSwapSubvol inp).

(** ** Program state and the monad of the stateful functions

    [active_mounts] and [mount_options_list] are the two lists that [run]
    creates and hands by reference to every call; [globalstorage] holds what
    has been inserted into global storage; [trace] is the sequence of
    external actions performed so far, most recent last. An exception leaves
    the state as it was when it was raised. *)

Record State : Type := {
  trace : list Event;
  active_mounts : list string;
  mount_options_list : list MountOptionEntry;
  globalstorage : gmap string GSValue
}.

Definition M (A : Type) : Type := State -> result A * State.

Definition ret {A} (a : A) : M A := fun st => (Ok a, st).

Definition raise {A} (e : exn) : M A := fun st => (Raise e, st).

Definition bind {A B} (c : M A) (k : A -> M B) : M B :=
  fun st =>
    match c st with
    | (Ok a, st') => k a st'
    | (Raise e, st') => (Raise e, st')
    end.

Notation "'let*' x ':=' c 'in' k" := (bind c (fun x => k))
  (at level 10, x pattern, c at level 100, k at level 200).
Notation "c ';;;' k" := (bind c (fun _ => k))
  (at level 100, k at level 200, right associativity).

(** [try: body  except Exception as e: handler(e)] *)
Definition try_except {A} (body : M A) (handler : exn -> M A) : M A :=
  fun st =>
    match body st with
    | (Ok a, st') => (Ok a, st')
    | (Raise e, st') => handler e st'
    end.

(** [try: body  finally: fin]; an exception of [fin] replaces the outcome of
    [body]. *)
Definition try_finally {A} (body : M A) (fin : M unit) : M A :=
  fun st =>
    match body st with
    | (r, st') =>
        match fin st' with
        | (Ok _, st'') => (r, st'')
        | (Raise e, st'') => (Raise e, st'')
        end
    end.

(** [for x in l: body(x)] *)
Fixpoint for_each {A} (l : list A) (body : A -> M unit) : M unit :=
  match l with
  | [] => ret tt
  | x :: r => body x ;;; for_each r body
  end.

Definition lift {A} (r : result A) : M A := fun st => (r, st).

Definition emit (ev : Event) : M unit :=
  fun st => (Ok tt, {| trace := (trace st ++ [ev])%list;
                       active_mounts := active_mounts st;
                       mount_options_list := mount_options_list st;
                       globalstorage := globalstorage st |}).

Definition get_trace : M (list Event) := fun st => (Ok (trace st), st).

Definition get_active_mounts : M (list string) :=
  fun st => (Ok (active_mounts st), st).

Definition set_active_mounts (am : list string) : M unit :=
  fun st => (Ok tt, {| trace := trace st;
                       active_mounts := am;
                       mount_options_list := mount_options_list st;
                       globalstorage := globalstorage st |}).

(** [active_mounts.append(path)] *)
Definition am_append (path : string) : M unit :=
  let* am := get_active_mounts in set_active_mounts (am ++ [path])%list.

(** [l.remove(x)]: the first occurrence goes. *)
Fixpoint remove_first (x : string) (l : list string) : list string :=
  match l with
  | [] => []
  | y :: r => if (y =? x)%string then r else y :: remove_first x r
  end.

(** [mount_options_list.append(entry)] *)
Definition mol_append (entry : MountOptionEntry) : M unit :=
  fun st => (Ok tt, {| trace := trace st;
                       active_mounts := active_mounts st;
                       mount_options_list :=
                         (mount_options_list st ++ [entry])%list;
                       globalstorage := globalstorage st |}).

(** The state in which the job starts: nothing done, nothing published. *)
Definition initial_state : State :=
  {| trace := []; active_mounts := []; mount_options_list := [];
     globalstorage := ∅ |}.

Definition get_mount_options_list : M (list MountOptionEntry) :=
  fun st => (Ok (mount_options_list st), st).

Definition set_mount_options_list (l : list MountOptionEntry) : M unit :=
  fun st => (Ok tt, {| trace := trace st;
                       active_mounts := active_mounts st;
                       mount_options_list := l;
                       globalstorage := globalstorage st |}).

(** [libcalamares.globalstorage.insert(key, value)] *)
Definition gs_insert (key : string) (value : GSValue) : M unit :=
  fun st => (Ok tt, {| trace := trace st;
                       active_mounts := active_mounts st;
                       mount_options_list := mount_options_list st;
                       globalstorage := <[key:=value]> (globalstorage st) |}).

(** [os.path.dirname(p)] *)
Definition dirname (p : string) : string :=
  let fix drop_name (rl : list ascii) : list ascii :=
    match rl with
    | c :: r => if is_slash c then rl else drop_name r
    | [] => []
    end in
  let fix drop_slashes (rl : list ascii) : list ascii :=
    match rl with
    | c :: r => if is_slash c then drop_slashes r else rl
    | [] => []
    end in
  let head := drop_name (rev (list_ascii_of_string p)) in
  match drop_slashes head with
  | [] => string_of_list_ascii (rev head)
  | stripped => string_of_list_ascii (rev stripped)
  end.

Section Mount.
Context (env : Env) (inp : Inputs).

(** *** External actions *)

(** [subprocess.call(argv)] *)
Definition call (argv : list string) : M Z :=
  let* tr := get_trace in
  let rc := cmd_rc env tr argv in
  emit (EvCmd argv rc) ;;; ret rc.

(** [subprocess.check_call(argv)], and
    [libcalamares.utils.host_env_process_output(argv, ...)], which raises
    the same error on a non-zero exit. *)
Definition check_call (argv : list string) : M unit :=
  let* rc := call argv in
  if rc =? 0 then ret tt else raise (CalledProcessError argv rc).

(** [libcalamares.utils.mount(device, target, fstype, options)] *)
Definition mount (dev target fstype opts : string) : M Z :=
  let* tr := get_trace in
  let rc := mount_rc env tr dev target fstype opts in
  emit (EvMount dev target fstype opts rc) ;;; ret rc.

(** [os.makedirs(path, exist_ok=True)] *)
Definition makedirs (path : string) : M unit :=
  let* tr := get_trace in
  let ok := makedirs_ok env tr path in
  emit (EvMakedirs path ok) ;;;
  if ok then ret tt else raise (OSError path).

(** [os.chmod(path, 0o750)] *)
Definition chmod (path : string) : M unit :=
  let* tr := get_trace in
  let ok := chmod_ok env tr path in
  emit (EvChmod path ok) ;;;
  if ok then ret tt else raise (OSError path).

Definition os_path_ismount (path : string) : M bool :=
  let* tr := get_trace in ret (ismount env tr path).

Definition os_path_exists (path : string) : M bool :=
  let* tr := get_trace in ret (path_exists env tr path).

(** [tempfile.mkdtemp(prefix=prefix)] *)
Definition mkdtemp (prefix : string) : M string :=
  let* tr := get_trace in
  let d := temp_dir env tr prefix in
  emit (EvTempDir d) ;;; ret d.

(** [with tempfile.TemporaryDirectory(prefix=prefix) as d: body(d)]; the
    directory is removed however the body ends. *)
Definition with_TemporaryDirectory {A} (prefix : string)
    (body : string -> M A) : M A :=
  let* d := mkdtemp prefix in
  try_finally (body d) (emit (EvTempDirCleanup d)).

(** [str(e)] *)
Definition str_exn (e : exn) : string :=
  match e with
  | Exception m => m
  | ZfsException m => m
  | _ => str_builtin env e
  end.

(** *** [get_btrfs_subvolumes], lines 130-169 *)
Definition get_btrfs_subvolumes (partitions : list Partition)
  : M (list Subvolume) :=
  let btrfs_subvolumes :=
    filter_btrfs_subvolumes (effective_btrfs_subvolumes inp) partitions in
  if swap_is_file inp then
    let swap_subvol := swap_subvol_name inp in
    gs_insert "btrfsSwapSubvol" (GSString swap_subvol) ;;;
    ret (btrfs_subvolumes
         ++ [ {| sv_mountPoint := "/swap"; subvolume := swap_subvol |} ])%list
  else ret btrfs_subvolumes.

(** *** [err], lines 235-240 *)
Definition err_unmount (tmp_dir : string) : M unit :=
  let* mounted := os_path_ismount tmp_dir in
  if mounted then
    let* rc := call ["umount"; "-v"; tmp_dir] in
    if negb (rc =? 0) then
      call ["umount"; "-v"; "-l"; tmp_dir] ;;; ret tt
    else ret tt
  else ret tt.

Definition err {A} (error_message : string) : M A :=
  let* am := get_active_mounts in
  for_each (sorted_reverse am) err_unmount ;;;
  raise (Exception error_message).

(** *** [mount_zfs], lines 172-233 *)

(** The loop of lines 186-189: the names of the last matching pool, if
    any; without a match the two local variables stay unbound. *)
Definition find_zfs_pool (zfs_pool_list : list ZfsPoolInfo) (mp : string)
  : option (string * string) :=
  fold_left (fun found zfs_pool =>
               if (zp_mountpoint zfs_pool =? mp)%string
               then Some (poolName zfs_pool, dsName zfs_pool)
               else found)
            zfs_pool_list None.

(** The loop of lines 201-204: the passphrase of the last entry that
    marks the mount point as encrypted. *)
Definition find_zfs_passphrase (zfs_info_list : list ZfsInfo) (mp : string)
  : option string :=
  fold_left (fun found zfs_info =>
               if (zi_mountpoint zfs_info =? mp)%string && encrypted zfs_info
               then Some (passphrase zfs_info)
               else found)
            zfs_info_list None.

Definition can_mount (d : ZfsDataset) : bool :=
  match canMount d with
  | CanMountStr s => (s =? "noauto")%string
  | CanMountBool b => b
  end.

(** Reading a local variable that the loop may have left unbound. *)
Definition local {A} (name : string) (v : option A) : M A :=
  match v with
  | Some a => ret a
  | None => raise (UnboundLocalError name)
  end.

(** [try: host_env_process_output(argv)
     except subprocess.CalledProcessError: raise ZfsException(message)] *)
Definition zfs_command (argv : list string) (message : string) : M unit :=
  try_except (check_call argv)
    (fun e => match e with
              | CalledProcessError _ _ => raise (ZfsException message)
              | _ => raise e
              end).

Definition mount_zfs (root_mount_point : string) (partition : Partition)
  : M unit :=
  match gs_zfsPoolInfo inp with
  | None | Some [] => raise (ZfsException "Internal error mounting zfs datasets")
  | Some zfs_pool_list =>
    let* mp := lift (match mountPoint partition with
                     | Some m => Ok m
                     | None => Raise (KeyError "mountPoint")
                     end) in
    let pool := find_zfs_pool zfs_pool_list mp in
    let* pool_name := local "pool_name" (fst <$> pool) in
    zfs_command ["zpool"; "import"; "-N"; "-R"; root_mount_point; pool_name]
                "Failed to import zpool" ;;;
    let encrypt := find_zfs_passphrase (default [] (gs_zfsInfo inp)) mp in
    match encrypt with
    | Some _ => zfs_command ["zfs"; "load-key"; pool_name]
                            "Failed to unlock zpool"
    | None => ret tt
    end ;;;
    if (mp =? "/")%string then
      match gs_zfsDatasets inp with
      | None | Some [] =>
          raise (ZfsException "Internal error mounting zfs datasets")
      | Some zfs =>
          for_each (sort_by_key zd_mountpoint zfs) (fun dataset =>
            if can_mount dataset then
              zfs_command ["zfs"; "mount"; zpool dataset ++ "/" ++ zd_dsName dataset]
                          "Failed to set zfs mountpoint"
            else ret tt)
      end
    else
      let* ds_name := local "ds_name" (snd <$> pool) in
      zfs_command ["zfs"; "mount"; pool_name ++ "/" ++ ds_name]
                  "Failed to set zfs mountpoint"
  end.

(** *** [mount_partition], lines 242-361 *)

Definition legacy_filesystems : list string :=
  ["fat16"; "fat32"; "exfat"; "ntfs"; "ext2"].

(** The condition of line 282. *)
Definition blocked (fstype raw_mount_point : string)
    (efi_location : option string) : bool :=
  let is_boot := str_in raw_mount_point ["/boot"; "/boot/efi"] in
  negb is_boot
  || str_in fstype ["ntfs"; "ext2"]
  || ((fstype =? "exfat")%string && truthy efi_location).

(** [partition[key]] for a key that may be missing *)
Definition getitem {A} (key : string) (v : option A) : M A :=
  match v with
  | Some a => ret a
  | None => raise (KeyError key)
  end.

(** The body of the [try] of lines 313-321. *)
Definition create_subvolumes (setup_dir : string)
    (btrfs_subvolumes : list Subvolume) : M unit :=
  for_each btrfs_subvolumes (fun s =>
    if (subvolume s =? "")%string then ret tt
    else
      let sub_path := setup_dir ++ subvolume s in
      let* present := os_path_exists sub_path in
      if present then ret tt
      else
        makedirs (dirname sub_path) ;;;
        check_call ["btrfs"; "subvolume"; "create"; sub_path] ;;;
        if (sv_mountPoint s =? "/root")%string then chmod sub_path
        else ret tt).

(** The [finally] of lines 323-326. *)
Definition release_setup_dir (setup_dir : string) : M unit :=
  let* mounted := os_path_ismount setup_dir in
  (if mounted then check_call ["umount"; "-v"; setup_dir] else ret tt) ;;;
  let* am := get_active_mounts in
  if str_in setup_dir am then set_active_mounts (remove_first setup_dir am)
  else ret tt.

(** Lines 343-361: the subvolumes other than the root one. *)
Definition mount_subvolumes (root_mount_point dev fstype : string)
    (mount_options_string : string) (btrfs_subvolumes : list Subvolume)
  : M unit :=
  for_each btrfs_subvolumes (fun s =>
    if (sv_mountPoint s =? "/")%string then
      gs_insert "btrfsRootSubvolume" (GSString (subvolume s))
    else
      let* sub_opts :=
        if negb (subvolume s =? "")%string
        then ret ("subvol=" ++ subvolume s ++ "," ++ mount_options_string)
        else err "subvolume not defined" in
      let sub_path := root_mount_point ++ sv_mountPoint s in
      makedirs sub_path ;;;
      let* rc := mount dev sub_path fstype sub_opts in
      if rc =? 0 then
        mol_append {| mountpoint := sv_mountPoint s;
                      option_string := mount_options_string |}
      else err ("Failed to mount subvolume " ++ subvolume s)).

(** Lines 303-361: the Btrfs root. *)
Definition mount_btrfs_root (root_mount_point dev fstype : string)
    (mount_options_string : string) (partitions : list Partition)
  : M unit :=
  let* btrfs_subvolumes := get_btrfs_subvolumes partitions in
  gs_insert "btrfsSubvolumes" (GSSubvolumes btrfs_subvolumes) ;;;
  with_TemporaryDirectory "calam-btrfs-" (fun setup_dir =>
    am_append setup_dir ;;;
    let* rc := mount dev setup_dir fstype "defaults" in
    (if negb (rc =? 0)
     then err ("Cannot mount btrfs for subvolume creation " ++ dev)
     else ret tt) ;;;
    try_finally (create_subvolumes setup_dir btrfs_subvolumes)
                (release_setup_dir setup_dir)) ;;;
  let* root_sub :=
    match find (fun s => (sv_mountPoint s =? "/")%string) btrfs_subvolumes with
    | Some s => ret s
    | None => err "Btrfs root subvolume (/) not found!"
    end in
  let* root_opts :=
    if negb (subvolume root_sub =? "")%string
    then ret ("subvol=" ++ subvolume root_sub ++ "," ++ mount_options_string)
    else err "root subvolume not defined" in
  let* rc := mount dev root_mount_point fstype root_opts in
  (if negb (rc =? 0)
   then err ("Failed to mount root subvolume " ++ dev)
   else ret tt) ;;;
  mount_subvolumes root_mount_point dev fstype mount_options_string
                   btrfs_subvolumes.

Definition mount_partition (root_mount_point : string)
    (partition : Partition) (partitions : list Partition)
    (mount_options : option (list MountOptionRule))
    (efi_location : option string) : M unit :=
  let* raw_mount_point := getitem "mountPoint" (mountPoint partition) in
  if (raw_mount_point =? "")%string then ret tt
  else
    let mount_point := root_mount_point ++ raw_mount_point in
    am_append mount_point ;;;
    makedirs mount_point ;;;
    call ["chcon"; "--reference=" ++ raw_mount_point; mount_point] ;;;
    let fstype := lower (default "" (fs partition)) in
    if (fstype =? "unformatted")%string then ret tt
    else
      let* dev := getitem "device" (device partition) in
      let* fstype :=
        if str_in fstype legacy_filesystems then
          (if blocked fstype raw_mount_point efi_location
           then err ("Unsupported partition with " ++ fstype
                     ++ " on " ++ raw_mount_point)
           else ret tt) ;;;
          ret (if negb (fstype =? "exfat")%string then "vfat" else "exfat")
        else ret fstype in
      let dev :=
        match luksMapperName partition with
        | Some name => path_join "/dev/mapper" [name]
        | None => dev
        end in
      if (fstype =? "zfs")%string then mount_zfs root_mount_point partition
      else
        let* mount_options_string :=
          lift (get_mount_options env fstype mount_options partition
                                  efi_location) in
        mol_append {| mountpoint := raw_mount_point;
                      option_string := mount_options_string |} ;;;
        if negb ((fstype =? "btrfs")%string && (raw_mount_point =? "/")%string)
        then
          let* rc := mount dev mount_point fstype mount_options_string in
          if negb (rc =? 0) then err ("Cannot mount " ++ dev) else ret tt
        else
          mount_btrfs_root root_mount_point dev fstype mount_options_string
                           partitions.

(** *** [enable_swap_partition], lines 364-369 *)
Definition enable_swap_partition (devices : list string) : M unit :=
  try_except
    (for_each devices (fun d => check_call ["swapon"; d]))
    (fun e => match e with
              | CalledProcessError _ _ => ret tt
              | _ => raise e
              end).

(** *** [run], lines 372-438 *)

(** [[p for p in l if cond(p)]] where evaluating [cond] may raise *)
Fixpoint filter_result {A} (cond : A -> result bool) (l : list A)
  : result (list A) :=
  match l with
  | [] => Ok []
  | x :: r =>
      match cond x with
      | Raise e => Raise e
      | Ok b =>
          match filter_result cond r with
          | Raise e => Raise e
          | Ok r' => Ok (if b then x :: r' else r')
          end
      end
  end.

(** [[f(p) for p in l]] where evaluating [f] may raise *)
Fixpoint map_result {A B} (f : A -> result B) (l : list A)
  : result (list B) :=
  match l with
  | [] => Ok []
  | x :: r =>
      match f x with
      | Raise e => Raise e
      | Ok y =>
          match map_result f r with
          | Raise e => Raise e
          | Ok r' => Ok (y :: r')
          end
      end
  end.

Definition item {A} (key : string) (v : option A) : result A :=
  match v with
  | Some a => Ok a
  | None => Raise (KeyError key)
  end.

(** Line 386 *)
Definition is_claimed_swap (p : Partition) : result bool :=
  match item "fs" (fs p) with
  | Raise e => Raise e
  | Ok f => Ok ((f =? "linuxswap")%string && default false (claimed p))
  end.

(** Line 387 *)
Definition is_plain_swap (p : Partition) : result bool :=
  match item "fsName" (fsName p) with
  | Raise e => Raise e
  | Ok n => Ok (n =? "linuxswap")%string
  end.

(** Line 388 *)
Definition is_luks_swap (p : Partition) : result bool :=
  match item "fsName" (fsName p) with
  | Raise e => Raise e
  | Ok n => Ok ((n =? "luks")%string || (n =? "luks2")%string)
  end.

(** Lines 386-389 *)
Definition swap_devices (partitions : list Partition)
  : result (list string) :=
  match filter_result is_claimed_swap partitions with
  | Raise e => Raise e
  | Ok claimed_swap_partitions =>
    match filter_result is_plain_swap claimed_swap_partitions with
    | Raise e => Raise e
    | Ok plain_swap =>
      match filter_result is_luks_swap claimed_swap_partitions with
      | Raise e => Raise e
      | Ok luks_swap =>
        match map_result (fun p => item "device" (device p)) plain_swap with
        | Raise e => Raise e
        | Ok plain_devices =>
          match map_result
                  (fun p =>
                     match item "luksMapperName" (luksMapperName p) with
                     | Ok n => Ok ("/dev/mapper/" ++ n)
                     | Raise e => Raise e
                     end) luks_swap with
          | Raise e => Raise e
          | Ok luks_devices => Ok (plain_devices ++ luks_devices)%list
          end
        end
      end
    end
  end.

(** [[p for p in l if "mountPoint" in p and p["mountPoint"]]] *)
Definition with_mount_point (l : list Partition) : list Partition :=
  filter (fun p => truthy (mountPoint p)) l.

(** The sort key [lambda x: x["mountPoint"]], on entries that have one. *)
Definition mountPoint_key (p : Partition) : string :=
  default "" (mountPoint p).

Definition configuration_error : string * string :=
  ("Configuration Error",
   "No partitions are defined for <pre>mount</pre> to use.").

Definition run : M (option (string * string)) :=
  match gs_partitions inp with
  | None | Some [] => ret (Some configuration_error)
  | Some partitions =>
    let* devices := lift (swap_devices partitions) in
    enable_swap_partition devices ;;;
    let* root_mount_point := mkdtemp "calamares-root-" in
    let mount_options := cfg_mountOptions inp in
    let extra_mounts := default [] (cfg_extraMounts inp) in
    let is_efi :=
      match gs_firmwareType inp with
      | Some t => (t =? "efi")%string
      | None => false
      end in
    let efi_location :=
      if is_efi then gs_efiSystemPartition inp else None in
    let extra_mounts :=
      if is_efi then extra_mounts
      else filter (fun m => negb (default false (efi m))) extra_mounts in
    set_mount_options_list [] ;;;
    set_active_mounts [] ;;;
    let physical :=
      sort_by_key mountPoint_key (with_mount_point partitions) in
    try_except
      (for_each physical (fun p =>
         mount_partition root_mount_point p partitions mount_options
                         efi_location) ;;;
       let extra :=
         sort_by_key mountPoint_key (with_mount_point extra_mounts) in
       for_each extra (fun p =>
         mount_partition root_mount_point p partitions mount_options
                         efi_location))
      (fun e => err (str_exn e)) ;;;
    gs_insert "rootMountPoint" (GSString root_mount_point) ;;;
    let* mount_options_list := get_mount_options_list in
    gs_insert "mountOptionsList" (GSOptionsList mount_options_list) ;;;
    gs_insert "extraMounts" (GSPartitions extra_mounts) ;;;
    ret None
  end.
End Mount.

(** * Notions used to state the properties *)

(** ** Resolver *)

(** The rule chosen for a kind: the first rule of that kind, else the first
    rule of kind ["default"]. *)
Definition selected_rule (rules : list MountOptionRule) (kind : string)
  : option MountOptionRule :=
  match find_rule rules kind with
  | Some r => Some r
  | None => find_rule rules "default"
  end.

(** The kind under which the rule is looked up: ["efi"] for the partition
    mounted at the EFI location, when there is one. *)
Definition effective_filesystem (filesystem_kind : string)
    (partition : Partition) (efi_location : option string) : string :=
  if truthy efi_location
     && bool_decide (mountPoint partition = efi_location)
  then "efi" else filesystem_kind.

(** An option list as it is handed to the mount executor. *)
Definition join_or_defaults (items : list string) : string :=
  match items with
  | [] => "defaults"
  | _ => join "," items
  end.

(** The answer to the rotational query for the disk of a partition: [None]
    when the query fails, [Some false] when the disk reports that it does
    not rotate. *)
Definition rotational (env : Env) (partition : Partition) : option bool :=
  match disk_name_for_partition partition with
  | Raise _ => None
  | Ok disk =>
      match read_file env (path_join "/sys/block" [disk; "queue/rotational"]) with
      | None => None
      | Some content =>
          Some (negb (content =? String "0" (String "010" ""))%string)
      end
  end.

Definition is_nvme (partition : Partition) : bool :=
  startswith (basename (default "" (device partition))) "nvme".

(** ** Planner *)

(** A mount point of a partition other than the root one. *)
Definition dedicated_mount (partitions : list Partition) (m : string) : Prop :=
  m <> "" /\ m <> "/" /\ exists p, p ∈ partitions /\ mountPoint p = Some m.

(** [mp] is [m] or lies below it, on a path-segment boundary. *)
Definition at_or_under (mp m : string) : Prop :=
  mp = m \/ exists rest, mp = m ++ "/" ++ rest.

(** ** Relations between the state before and after a computation *)

(** Every run of [c] relates the state before to the state after. *)
Definition respects (R : relation State) {A} (c : M A) : Prop :=
  forall st, R st (snd (c st)).

(** A component of the state is left as it was. *)
Definition same {X} (f : State -> X) : relation State :=
  fun s s' => f s' = f s.

(** Everything but the trace. *)
Definition stores (s : State)
  : list string * list MountOptionEntry * gmap string GSValue :=
  (active_mounts s, mount_options_list s, globalstorage s).

(** Only external actions happen: the trace gets longer, the rest stays. *)
Definition only_acts : relation State :=
  fun s s' => stores s' = stores s /\ trace s `prefix_of` trace s'.


(** ** Rollback *)


(** The state after further external actions. *)
Definition after (st : State) (evs : list Event) : State :=
  {| trace := (trace st ++ evs)%list;
     active_mounts := active_mounts st;
     mount_options_list := mount_options_list st;
     globalstorage := globalstorage st |}.

(** What unwinding a list of paths does, from a given history on: a path
    that is not a mount point is passed over; one that is gets a normal
    unmount and, when that fails, a detached one. *)
Inductive unwinds (env : Env)
  : list Event -> list string -> list Event -> Prop :=
| unwinds_nil tr : unwinds env tr [] []
| unwinds_skip tr p ps evs :
    ismount env tr p = false ->
    unwinds env tr ps evs ->
    unwinds env tr (p :: ps) evs
| unwinds_umount tr p ps evs :
    ismount env tr p = true ->
    cmd_rc env tr ["umount"; "-v"; p] = 0 ->
    unwinds env (tr ++ [EvCmd ["umount"; "-v"; p] 0]) ps evs ->
    unwinds env tr (p :: ps) (EvCmd ["umount"; "-v"; p] 0 :: evs)
| unwinds_detach tr p ps evs rc rc' :
    ismount env tr p = true ->
    cmd_rc env tr ["umount"; "-v"; p] = rc -> rc <> 0 ->
    cmd_rc env (tr ++ [EvCmd ["umount"; "-v"; p] rc])
           ["umount"; "-v"; "-l"; p] = rc' ->
    unwinds env (tr ++ [EvCmd ["umount"; "-v"; p] rc;
                        EvCmd ["umount"; "-v"; "-l"; p] rc']) ps evs ->
    unwinds env tr (p :: ps)
            (EvCmd ["umount"; "-v"; p] rc
             :: EvCmd ["umount"; "-v"; "-l"; p] rc' :: evs).

(** ** The partition protocol *)


(** Where a partition is mounted below the install root. *)
Definition target_path (root : string) (p : Partition) : string :=
  root ++ mountPoint_key p.

Definition is_ok {A} (r : result A) : Prop :=
  match r with Ok _ => True | Raise _ => False end.

(** No scratch directory that [tempfile] may hand out is among [paths]. *)
Definition scratch_fresh (env : Env) (paths : list string) : Prop :=
  forall tr, temp_dir env tr "calam-btrfs-" ∉ paths.

(** The ledger after a computation that started with ledger [am]: as it
    was, or with one scratch directory left at its end, which happens only
    when the computation fails. *)
Definition ledger_kept (env : Env) (am : list string) {A}
    (x : result A * State) : Prop :=
  (is_ok (fst x) -> active_mounts (snd x) = am)
  /\ (active_mounts (snd x) = am
      \/ exists tr,
           active_mounts (snd x) = (am ++ [temp_dir env tr "calam-btrfs-"])%list).

Definition keeps_ledger (env : Env) {A} (c : M A) : Prop :=
  forall st, scratch_fresh env (active_mounts st) ->
             ledger_kept env (active_mounts st) (c st).

(** The mount executor has returned 0 for [target]. *)
Definition mounted_at (tr : list Event) (target : string) : Prop :=
  exists dev fstype opts, EvMount dev target fstype opts 0 ∈ tr.

(** The entries added to the options list are for mount points below
    [root] whose mount has succeeded by then. *)
Definition entries_follow_mounts (root : string) : relation State :=
  fun s s' =>
    exists new,
      mount_options_list s' = (mount_options_list s ++ new)%list
      /\ trace s `prefix_of` trace s'
      /\ Forall (fun e => mounted_at (trace s') (root ++ mountpoint e)) new.

Definition is_mount_event (ev : Event) : bool :=
  match ev with EvMount _ _ _ _ _ => true | _ => false end.

(** The options list is as it was and the mount executor has not been
    called. *)
Definition before_mount : relation State :=
  fun s s' =>
    mount_options_list s' = mount_options_list s
    /\ exists evs, trace s' = (trace s ++ evs)%list
                   /\ forallb (fun ev => negb (is_mount_event ev)) evs = true.


(** * Reading a trace *)

(** The targets for which the mount executor returned 0, in order. *)
Definition mounted_targets (tr : list Event) : list string :=
  omap (fun ev => match ev with
                  | EvMount _ target _ _ rc =>
                      if rc =? 0 then Some target else None
                  | _ => None
                  end) tr.

(** The target of an [umount -v] or [umount -v -l] command. *)
Definition umount_target (argv : list string) : option string :=
  match argv with
  | [cmd; v; target] =>
      if (cmd =? "umount")%string && (v =? "-v")%string
      then Some target else None
  | [cmd; v; l; target] =>
      if (cmd =? "umount")%string && (v =? "-v")%string && (l =? "-l")%string
      then Some target else None
  | _ => None
  end.


(** * A reference environment for concrete runs

    Mounting fails for the targets listed in [failing] and succeeds
    elsewhere; every command succeeds; a path is a mount point when it was
    mounted and not unmounted since; the disks listed in [ssds] report that
    they do not rotate. *)
Module Scenario.
Definition strip_slashes (p : string) : string :=
  let fix go (rl : list ascii) :=
    match rl with
    | c :: r => if is_slash c then go r else rl
    | [] => []
    end in
  match go (rev (list_ascii_of_string p)) with
  | [] => p
  | l => string_of_list_ascii (rev l)
  end.

Definition same_path (a b : string) : bool :=
  (strip_slashes a =? strip_slashes b)%string.

Fixpoint remove_path (x : string) (l : list string) : list string :=
  match l with
  | [] => []
  | y :: r => if same_path y x then r else y :: remove_path x r
  end.

Definition mount_table_step (m : list string) (ev : Event) : list string :=
  match ev with
  | EvMount _ target _ _ rc => if rc =? 0 then target :: m else m
  | EvCmd argv rc =>
      match umount_target argv with
      | Some target => if rc =? 0 then remove_path target m else m
      | None => m
      end
  | _ => m
  end.

Definition mount_table (tr : list Event) : list string :=
  fold_left mount_table_step tr [].

Definition kernel (failing ssds : list string) : Env :=
  {| read_file := fun path =>
       if existsb (fun d => (path =? "/sys/block/" ++ d ++ "/queue/rotational")%string)
                  ssds
       then Some (String "0" (String "010" "")) else None;
     mount_rc := fun _ _ target _ _ => if str_in target failing then 32 else 0;
     cmd_rc := fun _ _ => 0;
     ismount := fun tr p => existsb (same_path p) (mount_table tr);
     path_exists := fun _ _ => false;
     makedirs_ok := fun _ _ => true;
     chmod_ok := fun _ _ => true;
     temp_dir := fun _ prefix => "/tmp/" ++ prefix ++ "x";
     str_builtin := fun _ => "error" |}.

Definition partition (dev fstype mp : string) : Partition :=
  {| device := Some dev; fs := Some fstype; mountPoint := Some mp;
     options := None; luksMapperName := None; claimed := None;
     fsName := None; efi := None |}.

Definition bind_mount (dev mp : string) : Partition :=
  {| device := Some dev; fs := None; mountPoint := Some mp;
     options := Some ["bind"]; luksMapperName := None; claimed := None;
     fsName := None; efi := None |}.

Definition inputs (partitions extra : list Partition) : Inputs :=
  {| cfg_btrfsSubvolumes := None; cfg_btrfsSwapSubvol := None;
     cfg_mountOptions := None; cfg_extraMounts := Some extra;
     gs_partitions := Some partitions; gs_partitionChoices := None;
     gs_zfsPoolInfo := None; gs_zfsInfo := None; gs_zfsDatasets := None;
     gs_firmwareType := None; gs_efiSystemPartition := None |}.

Definition root : string := "/tmp/calamares-root-x".



(** One ext4 root partition that cannot be mounted. *)
Definition root_fails : result unit * State :=
  mount_partition (kernel ["/tmp/calamares-root-x/"] [])
    (inputs [partition "/dev/sda1" "ext4" "/"] []) root
    (partition "/dev/sda1" "ext4" "/")
    [partition "/dev/sda1" "ext4" "/"] None None initial_state.

Definition zfs_inputs (pool_mount_point : string) : Inputs :=
  {| cfg_btrfsSubvolumes := None; cfg_btrfsSwapSubvol := None;
     cfg_mountOptions := None; cfg_extraMounts := None;
     gs_partitions := Some [partition "/dev/sda1" "zfs" "/data"];
     gs_partitionChoices := None;
     gs_zfsPoolInfo :=
       Some [ {| zp_mountpoint := pool_mount_point; poolName := "zpcala";
                 dsName := "data" |} ];
     gs_zfsInfo := None; gs_zfsDatasets := None;
     gs_firmwareType := None; gs_efiSystemPartition := None |}.

(** A ZFS partition with its pool, mounted without failure. *)
Definition zfs_mounted : result unit * State :=
  mount_partition (kernel [] []) (zfs_inputs "/data") root
    (partition "/dev/sda1" "zfs" "/data")
    [partition "/dev/sda1" "zfs" "/data"] None None initial_state.

(** A swap file is chosen while a partition is mounted at [/swap]. *)
Definition swap_file_inputs : Inputs :=
  {| cfg_btrfsSubvolumes := None; cfg_btrfsSwapSubvol := None;
     cfg_mountOptions := None; cfg_extraMounts := None;
     gs_partitions := None;
     gs_partitionChoices := Some {| swap := Some "file" |};
     gs_zfsPoolInfo := None; gs_zfsInfo := None; gs_zfsDatasets := None;
     gs_firmwareType := None; gs_efiSystemPartition := None |}.

Definition swap_partitions : list Partition :=
  [partition "/dev/sda1" "btrfs" "/"; partition "/dev/sda2" "ext4" "/swap"].
End Scenario.

Module ScenarioRules.
(** The rule table of scenario A. *)
Definition btrfs_rule : MountOptionRule :=
  {| filesystem := "btrfs"; rule_options := Some ["noatime"];
     ssdOptions := Some ["ssd"]; nvmeOptions := None; hddOptions := None |}.

(** An extra mount that carries an empty option list. *)
Definition no_options : Partition :=
  {| device := Some "/dev/sda3"; fs := Some "ext4"; mountPoint := Some "/data";
     options := Some []; luksMapperName := None; claimed := None;
     fsName := None; efi := None |}.
End ScenarioRules.

(** * Notions for the further properties *)

(** Every character of [s] is a decimal digit. *)
Definition all_digits (s : string) : Prop :=
  Forall (fun c => is_digit c = true) (list_ascii_of_string s).

(** [s] is empty or ends with a character for which [f] is false. *)
Definition last_char_not (f : ascii -> bool) (s : string) : Prop :=
  match rev (list_ascii_of_string s) with
  | [] => True
  | c :: _ => f c = false
  end.

Definition is_newline (c : ascii) : bool := Ascii.eqb c "010"%char.

(** The keys of a list are in ascending order. *)
Definition ascending {A} (key : A -> string) (l : list A) : Prop :=
  StronglySorted (fun a b => String.le (key a) (key b)) l.

(** A claimed swap partition whose device [run] enables as [d]. *)
Definition enabled_swap (p : Partition) (d : string) : Prop :=
  fs p = Some "linuxswap" /\ claimed p = Some true
  /\ ((fsName p = Some "linuxswap" /\ device p = Some d)
      \/ ((fsName p = Some "luks" \/ fsName p = Some "luks2")
          /\ exists n, luksMapperName p = Some n /\ d = "/dev/mapper/" ++ n)).

(** The [swapon] command for a device, with its exit status. *)
Definition is_swapon (d : string) (ev : Event) : Prop :=
  exists rc, ev = EvCmd ["swapon"; d] rc.

Definition event_failed (ev : Event) : Prop :=
  match ev with
  | EvCmd _ rc => rc <> 0
  | _ => False
  end.

(** Lines 399-407: the extra mounts that are mounted and published. *)
Definition effective_extra_mounts (inp : Inputs) : list Partition :=
  let extra_mounts := default [] (cfg_extraMounts inp) in
  if bool_decide (gs_firmwareType inp = Some "efi") then extra_mounts
  else filter (fun m => efi m <> Some true) extra_mounts.

(** Lines 403-405: the EFI location handed to the partition protocol. *)
Definition run_efi_location (inp : Inputs) : option string :=
  if bool_decide (gs_firmwareType inp = Some "efi")
  then gs_efiSystemPartition inp else None.

(** The state with one more path on the ledger. *)
Definition with_ledger_entry (st : State) (path : string) : State :=
  {| trace := trace st;
     active_mounts := (active_mounts st ++ [path])%list;
     mount_options_list := mount_options_list st;
     globalstorage := globalstorage st |}.

(** The state with one more entry in the options list. *)
Definition with_options_entry (st : State) (e : MountOptionEntry) : State :=
  {| trace := trace st;
     active_mounts := active_mounts st;
     mount_options_list := (mount_options_list st ++ [e])%list;
     globalstorage := globalstorage st |}.

(** The filesystem kind handed to the mount executor: the FAT kinds that
    are accepted go by the name of the driver. *)
Definition mount_fstype (fstype : string) : string :=
  if str_in fstype legacy_filesystems
  then (if (fstype =? "exfat")%string then "exfat" else "vfat")
  else fstype.

(** The device handed to the mount executor: the mapper device of an
    encrypted partition, else the partition itself. *)
Definition mount_device (p : Partition) (dev : string) : string :=
  match luksMapperName p with
  | Some name => "/dev/mapper/" ++ name
  | None => dev
  end.

(** What [mount_partition] does before it looks at the filesystem. *)
Definition prepared (env : Env) (st : State) (root raw : string) : State :=
  let st1 := with_ledger_entry st (root ++ raw) in
  after st1
    [EvMakedirs (root ++ raw) true;
     EvCmd ["chcon"; "--reference=" ++ raw; root ++ raw]
           (cmd_rc env (trace st ++ [EvMakedirs (root ++ raw) true])
                   ["chcon"; "--reference=" ++ raw; root ++ raw])].

(** The failures that [mount_zfs] raises itself. *)
Definition zfs_failure (e : exn) : Prop :=
  e = ZfsException "Internal error mounting zfs datasets"
  \/ e = ZfsException "Failed to import zpool"
  \/ e = ZfsException "Failed to unlock zpool"
  \/ e = ZfsException "Failed to set zfs mountpoint".

(** The commands of the ZFS protocol, as events that succeeded. *)
Definition zpool_import (root pool : string) : Event :=
  EvCmd ["zpool"; "import"; "-N"; "-R"; root; pool] 0.

Definition zfs_load_key (pool : string) : Event :=
  EvCmd ["zfs"; "load-key"; pool] 0.

Definition zfs_mount (pool ds : string) : Event :=
  EvCmd ["zfs"; "mount"; pool ++ "/" ++ ds] 0.

(** The unlock step: present when an entry marks the mount point as
    encrypted. *)
Definition zfs_unlock (inp : Inputs) (mp pool : string) : list Event :=
  match find_zfs_passphrase (default [] (gs_zfsInfo inp)) mp with
  | Some _ => [zfs_load_key pool]
  | None => []
  end.

(** The entry of the options list for a subvolume. *)
Definition subvolume_entry (opts : string) (s : Subvolume)
  : MountOptionEntry :=
  {| mountpoint := sv_mountPoint s; option_string := opts |}.

Definition is_root_subvolume (s : Subvolume) : bool :=
  (sv_mountPoint s =? "/")%string.

(** Whatever [c] raises satisfies [E]. *)
Definition raises_only (E : exn -> Prop) {A} (c : M A) : Prop :=
  forall st e, fst (c st) = Raise e -> E e.

(** The options list is as it was and the trace has only grown. *)
Definition keeps_options : relation State :=
  fun s s' =>
    mount_options_list s' = mount_options_list s
    /\ trace s `prefix_of` trace s'.

(** ** The subvolume loop of [btrfs_swap.py]

    The file is the body of a variant of lines 343-361 of the mount
    module; the names it uses without binding them ([mount_options],
    [partition], [root_mount_point], [device], [fstype],
    [mount_options_string], [btrfs_subvolumes]) are the parameters here,
    and [mount_options_list] is the list of the state. *)
Section BtrfsSwap.
Context (env : Env) (inp : Inputs).

(** [f"{x}"] of a value that may be [None] *)
Definition format_str (x : option string) : string := default "None" x.

(** Lines 9-29: one round of the loop. *)
Definition btrfs_swap_round (swap_subvol : string) (has_swap : bool)
    (swap_options : option string)
    (root_mount_point dev fstype mount_options_string : string)
    (s : Subvolume) : M unit :=
  if (sv_mountPoint s =? "/")%string then
    gs_insert "btrfsRootSubvolume" (GSString (subvolume s))
  else
    let chosen_options :=
      if has_swap && (subvolume s =? swap_subvol)%string
      then swap_options else Some mount_options_string in
    let sub_opts :=
      if negb (subvolume s =? "")%string
      then "subvol=" ++ subvolume s ++ "," ++ format_str chosen_options
      else format_str chosen_options in
    let sub_path := root_mount_point ++ sv_mountPoint s in
    makedirs env sub_path ;;;
    let* rc := mount env dev sub_path fstype sub_opts in
    if rc =? 0 then
      mol_append {| mountpoint := sv_mountPoint s;
                    option_string := mount_options_string |}
    else ret tt.

Definition btrfs_swap (mount_options : option (list MountOptionRule))
    (partition : Partition)
    (root_mount_point dev fstype mount_options_string : string)
    (btrfs_subvolumes : list Subvolume) : M unit :=
  let swap_subvol := swap_subvol_name inp in
  let has_swap :=
    existsb (fun s => (subvolume s =? swap_subvol)%string) btrfs_subvolumes in
  let* swap_options :=
    if has_swap then
      let* o := lift (get_mount_options env "btrfs_swap" mount_options
                                        partition None) in
      ret (Some o)
    else ret None in
  for_each btrfs_subvolumes
           (btrfs_swap_round swap_subvol has_swap swap_options
                             root_mount_point dev fstype mount_options_string).
End BtrfsSwap.

(** Further inputs for concrete runs. *)
Module ScenarioMore.
(** A claimed swap partition on an encrypted volume. *)
Definition luks_swap : Partition :=
  {| device := Some "/dev/sda3"; fs := Some "linuxswap";
     mountPoint := Some ""; options := None;
     luksMapperName := Some "luks-swap"; claimed := Some true;
     fsName := Some "luks2"; efi := None |}.

(** An encrypted partition for [/home]. *)
Definition luks_home : Partition :=
  {| device := Some "/dev/sda2"; fs := Some "ext4";
     mountPoint := Some "/home"; options := None;
     luksMapperName := Some "luks-home"; claimed := None;
     fsName := Some "luks2"; efi := None |}.

(** A pool for [/data], which holds a passphrase. *)
Definition encrypted_pool : Inputs :=
  {| cfg_btrfsSubvolumes := None; cfg_btrfsSwapSubvol := None;
     cfg_mountOptions := None; cfg_extraMounts := None;
     gs_partitions := Some [Scenario.partition "/dev/sda1" "zfs" "/data"];
     gs_partitionChoices := None;
     gs_zfsPoolInfo :=
       Some [ {| zp_mountpoint := "/data"; poolName := "zpcala";
                 dsName := "data" |} ];
     gs_zfsInfo :=
       Some [ {| zi_mountpoint := "/data"; encrypted := true;
                 passphrase := "secret" |} ];
     gs_zfsDatasets := None;
     gs_firmwareType := None; gs_efiSystemPartition := None |}.

(** The rule for the EFI system partition. *)
Definition efi_rule : MountOptionRule :=
  {| filesystem := "efi"; rule_options := Some ["umask=0077"];
     ssdOptions := None; nvmeOptions := None; hddOptions := None |}.

(** An environment in which every path exists already. *)
Definition installed : Env :=
  {| read_file := fun _ => None;
     mount_rc := fun _ _ _ _ _ => 0;
     cmd_rc := fun _ _ => 0;
     ismount := fun _ _ => false;
     path_exists := fun _ _ => true;
     makedirs_ok := fun _ _ => true;
     chmod_ok := fun _ _ => true;
     temp_dir := fun _ prefix => "/tmp/" ++ prefix ++ "x";
     str_builtin := fun _ => "error" |}.

(** A root partition, a home partition and two extra mounts. *)
Definition desktop : Inputs :=
  Scenario.inputs [Scenario.partition "/dev/sda2" "ext4" "/home";
                   Scenario.partition "/dev/sda1" "ext4" "/"]
                  [Scenario.bind_mount "/dev" "/dev";
                   Scenario.partition "proc" "proc" "/proc"].
End ScenarioMore.

(** * Properties *)

(** ** Strings *)

Lemma append_cons (c : ascii) (s t : string) :
  String c s ++ t = String c (s ++ t).
Proof. reflexivity. Qed.

Lemma prefix_app (pre s : string) :
  String.prefix pre s = true <-> exists rest, s = pre ++ rest.
Proof.
  revert s. induction pre as [|c pre IH]; intros s; simpl.
  - split; [intros _; by exists s|]. by destruct s.
  - destruct s as [|d s]; simpl.
    + split; [done|]. intros [rest H]. by rewrite append_cons in H.
    + destruct (ascii_dec c d) as [->|Hne].
      * rewrite IH. split; intros [rest H]; [by exists rest; rewrite H|].
        rewrite append_cons in H. injection H as ->. by exists rest.
      * split; [done|]. intros [rest H]. rewrite append_cons in H.
        by injection H.
Qed.

Lemma string_app_assoc (a b c : string) : (a ++ b) ++ c = a ++ (b ++ c).
Proof. induction a; [done|]. rewrite !append_cons. congruence. Qed.

(** ** Mount option resolver *)

Lemma get_mount_options_rule env fsk rules p efi :
  options p = None ->
  (truthy efi = true -> is_Some (mountPoint p)) ->
  get_mount_options env fsk (Some rules) p efi =
  Ok (match selected_rule rules (effective_filesystem fsk p efi) with
      | None => "defaults"
      | Some r => join_or_defaults
                    (get_list (rule_options r) ++ device_class_options env r p)
      end).
Proof.
  intros Hopt Hmp. unfold get_mount_options, effective_filesystem, selected_rule.
  rewrite Hopt.
  destruct (truthy efi) eqn:He; simpl.
  - destruct (Hmp eq_refl) as [mp Hmp']. rewrite Hmp'.
    destruct efi as [e|]; [|discriminate]. simpl.
    destruct (String.eqb_spec mp e) as [->|Hne].
    + rewrite bool_decide_eq_true_2 by done.
      destruct (find_rule rules "efi"); [|destruct (find_rule rules "default")];
        try done; unfold join_or_defaults; by destruct (_ ++ _)%list.
    + rewrite bool_decide_eq_false_2 by congruence.
      destruct (find_rule rules fsk); [|destruct (find_rule rules "default")];
        try done; unfold join_or_defaults; by destruct (_ ++ _)%list.
  - destruct (find_rule rules fsk); [|destruct (find_rule rules "default")];
      try done; unfold join_or_defaults; by destruct (_ ++ _)%list.
Qed.

Lemma is_ssd_disk_rotational env p :
  is_ssd_disk env p = true <-> rotational env p = Some false.
Proof.
  unfold is_ssd_disk, rotational.
  destruct (disk_name_for_partition p); [|done].
  destruct (read_file env _); [|done].
  destruct (_ =? _)%string; simpl; split; congruence.
Qed.

Lemma device_class_options_cases env r p :
  device_class_options env r p =
  match rotational env p with
  | Some false =>
      if is_nvme p then get_list (nvmeOptions r) else get_list (ssdOptions r)
  | _ => get_list (hddOptions r)
  end.
Proof.
  unfold device_class_options, is_nvme.
  destruct (is_ssd_disk env p) eqn:E.
  - apply is_ssd_disk_rotational in E. by rewrite E.
  - destruct (rotational env p) as [[|]|] eqn:R; try done.
    apply is_ssd_disk_rotational in R. congruence.
Qed.

(** Claim C10. For every partition that has the key ["options"], the
    resolver returns the comma-join of that list, whatever the filesystem
    kind, the rule table, the EFI location and the environment (so neither
    the rule table nor the rotational state of the disk is consulted); for
    the empty list the result is the empty string and not ["defaults"]. *)
Theorem get_mount_options_explicit env fsk rules p efi l :
  options p = Some l ->
  get_mount_options env fsk rules p efi = Ok (join "," l)
  /\ (l = [] -> get_mount_options env fsk rules p efi = Ok ""
               /\ get_mount_options env fsk rules p efi <> Ok "defaults").
Proof.
  intros H. unfold get_mount_options. rewrite H. split; [done|].
  intros ->. split; [done|discriminate].
Qed.


(** Claim C9. When a rule is selected and the partition has no explicit
    options, the resolver appends to the base options of the rule its NVMe
    options for a disk that does not rotate and whose name starts with
    [nvme], its SSD options for any other disk that does not rotate, and its
    HDD options for a disk that rotates or whose rotational query fails. *)
Theorem get_mount_options_device_class env fsk rules p efi r :
  options p = None ->
  (truthy efi = true -> is_Some (mountPoint p)) ->
  selected_rule rules (effective_filesystem fsk p efi) = Some r ->
  get_mount_options env fsk (Some rules) p efi =
  Ok (join_or_defaults
        (get_list (rule_options r)
         ++ match rotational env p with
            | Some false =>
                if is_nvme p then get_list (nvmeOptions r)
                else get_list (ssdOptions r)
            | Some true | None => get_list (hddOptions r)
            end)).
Proof.
  intros Hopt Hmp Hsel.
  rewrite get_mount_options_rule by done.
  by rewrite Hsel, device_class_options_cases.
Qed.

(** ** Btrfs subvolume planner *)

Lemma covered_by_spec mp m :
  covered_by mp m = true <-> m <> "" /\ at_or_under mp m.
Proof.
  unfold covered_by, at_or_under, startswith.
  rewrite andb_true_iff, negb_true_iff, orb_true_iff, String.eqb_neq,
    String.eqb_eq, prefix_app.
  split; intros [? [?|[rest ->]]]; split; auto; right; exists rest;
    by rewrite ?string_app_assoc.
Qed.

Lemma non_root_partition_mounts_spec partitions m :
  m ∈ non_root_partition_mounts partitions
  <-> m <> "/" /\ exists p, p ∈ partitions /\ mountPoint p = Some m.
Proof.
  unfold non_root_partition_mounts. rewrite list_elem_of_omap. split.
  - intros (p & Hp & H). destruct (mountPoint p) as [m'|] eqn:E; [|done].
    destruct (String.eqb_spec m' "/"); [done|]. injection H as ->. eauto.
  - intros (Hne & p & Hp & E). exists p. split; [done|]. rewrite E.
    destruct (String.eqb_spec m "/"); done.
Qed.

Lemma keep_subvolume_spec partitions s :
  keep_subvolume (non_root_partition_mounts partitions) s = true
  <-> sv_mountPoint s = "/"
      \/ ~ exists m, dedicated_mount partitions m /\ at_or_under (sv_mountPoint s) m.
Proof.
  unfold keep_subvolume, dedicated_mount.
  rewrite orb_true_iff, String.eqb_eq, negb_true_iff.
  apply or_iff_compat_l.
  rewrite <- not_true_iff_false, existsb_exists.
  apply not_iff_compat. split.
  - intros (m & Hin & Hc). apply covered_by_spec in Hc as [? ?].
    apply list_elem_of_In, non_root_partition_mounts_spec in Hin as [? ?].
    exists m. auto.
  - intros (m & (Hne & Hroot & Hp) & Hu). exists m. split.
    + apply list_elem_of_In, non_root_partition_mounts_spec. auto.
    + apply covered_by_spec. auto.
Qed.

(** Claim C6, as amended. The planner returns, in their configured order,
    exactly the entries of the configured (or default) layout that are a
    root entry (mount point ["/"]) or whose mount point neither equals nor
    lies under, on a path-segment boundary, the non-empty mount point of a
    partition other than the root one; the only further entry is the
    [/swap] entry that the planner appends itself, unfiltered, when a swap
    file was chosen. With a partition at [/home], the default layout and no
    swap file, only the root entry remains. *)
Theorem get_btrfs_subvolumes_filter inp partitions st :
  exists kept st',
    get_btrfs_subvolumes inp partitions st =
      (Ok (kept ++ (if swap_is_file inp
                    then [ {| sv_mountPoint := "/swap";
                              subvolume := swap_subvol_name inp |} ]
                    else []))%list, st')
    /\ sublist kept (effective_btrfs_subvolumes inp)
    /\ (forall s, s ∈ kept <->
          s ∈ effective_btrfs_subvolumes inp
          /\ (sv_mountPoint s = "/"
              \/ ~ exists m, dedicated_mount partitions m
                             /\ at_or_under (sv_mountPoint s) m))
    /\ (cfg_btrfsSubvolumes inp = None -> swap_is_file inp = false ->
        dedicated_mount partitions "/home" ->
        get_btrfs_subvolumes inp partitions st
        = (Ok [ {| sv_mountPoint := "/"; subvolume := "/@" |} ], st)).
Proof.
  exists (filter_btrfs_subvolumes (effective_btrfs_subvolumes inp) partitions).
  assert (Hmem : forall s,
    s ∈ filter_btrfs_subvolumes (effective_btrfs_subvolumes inp) partitions <->
    s ∈ effective_btrfs_subvolumes inp
    /\ (sv_mountPoint s = "/"
        \/ ~ exists m, dedicated_mount partitions m
                       /\ at_or_under (sv_mountPoint s) m)).
  { intros s. unfold filter_btrfs_subvolumes.
    rewrite list_elem_of_filter, Is_true_true, keep_subvolume_spec. tauto. }
  unfold get_btrfs_subvolumes.
  destruct (swap_is_file inp) eqn:Hswap.
  - eexists. split; [reflexivity|]. split; [apply sublist_filter|].
    split; [exact Hmem|]. done.
  - exists st. unfold ret. rewrite app_nil_r. split; [reflexivity|].
    split; [apply sublist_filter|]. split; [exact Hmem|].
    intros Hcfg _ Hhome. f_equal. f_equal.
    unfold effective_btrfs_subvolumes. rewrite Hcfg.
    unfold filter_btrfs_subvolumes, default_btrfs_subvolumes.
    assert (Hroot : keep_subvolume (non_root_partition_mounts partitions)
                      {| sv_mountPoint := "/"; subvolume := "/@" |} = true).
    { apply keep_subvolume_spec. by left. }
    assert (Hh : keep_subvolume (non_root_partition_mounts partitions)
                   {| sv_mountPoint := "/home"; subvolume := "/@home" |} = false).
    { apply not_true_iff_false. rewrite keep_subvolume_spec. simpl.
      intros [?|Hn]; [done|]. apply Hn. exists "/home". split; [done|by left]. }
    rewrite !filter_cons, filter_nil.
    rewrite decide_True by (by apply Is_true_true).
    rewrite decide_False by (rewrite Is_true_true; congruence).
    done.
Qed.

(** ** Relational reasoning on the state monad *)

Global Instance same_preorder {X} (f : State -> X) : PreOrder (same f).
Proof.
  split; [intros s; by unfold same|].
  intros s1 s2 s3 H1 H2. unfold same in *. congruence.
Qed.

Global Instance only_acts_preorder : PreOrder only_acts.
Proof.
  split; [intros s; by unfold only_acts|].
  intros s1 s2 s3 [H1 H1'] [H2 H2']. split; [congruence|by etrans].
Qed.

Section Respects.
Context (R : relation State) `{!PreOrder R}.

Lemma respects_ret {A} (a : A) : respects R (ret a).
Proof. intros st. reflexivity. Qed.

Lemma respects_raise {A} e : respects R (@raise A e).
Proof. intros st. reflexivity. Qed.

Lemma respects_lift {A} (r : result A) : respects R (lift r).
Proof. intros st. reflexivity. Qed.

Lemma respects_bind {A B} (c : M A) (k : A -> M B) :
  respects R c -> (forall a, respects R (k a)) -> respects R (bind c k).
Proof.
  intros Hc Hk st. unfold bind. specialize (Hc st).
  destruct (c st) as [[a|e] st']; simpl in *; [|done].
  etrans; [exact Hc|apply Hk].
Qed.

Lemma respects_try_except {A} (c : M A) (h : exn -> M A) :
  respects R c -> (forall e, respects R (h e)) -> respects R (try_except c h).
Proof.
  intros Hc Hh st. unfold try_except. specialize (Hc st).
  destruct (c st) as [[a|e] st']; simpl in *; [done|].
  etrans; [exact Hc|apply Hh].
Qed.

Lemma respects_try_finally {A} (c : M A) (fin : M unit) :
  respects R c -> respects R fin -> respects R (try_finally c fin).
Proof.
  intros Hc Hf st. unfold try_finally. specialize (Hc st).
  destruct (c st) as [r st']; simpl in *. specialize (Hf st').
  destruct (fin st') as [[[]|e] st'']; simpl in *; by etrans.
Qed.

Lemma respects_for_each {A} (l : list A) (body : A -> M unit) :
  (forall x, respects R (body x)) -> respects R (for_each l body).
Proof.
  intros Hb. induction l as [|x l IH]; simpl.
  - apply respects_ret.
  - apply respects_bind; auto.
Qed.

Lemma respects_get_trace : respects R get_trace.
Proof. intros st. reflexivity. Qed.

Lemma respects_get_active_mounts : respects R get_active_mounts.
Proof. intros st. reflexivity. Qed.

Lemma respects_get_mount_options_list : respects R get_mount_options_list.
Proof. intros st. reflexivity. Qed.
End Respects.

Lemma respects_weaken (R R' : relation State) {A} (c : M A) :
  (forall s s', R s s' -> R' s s') -> respects R c -> respects R' c.
Proof. intros HR Hc st. apply HR, Hc. Qed.

(** One step through the structure of a computation; what the goal turns
    into are the same questions about its parts. *)
Ltac respects_step :=
  lazymatch goal with
  | |- respects _ (bind _ _) => refine (respects_bind _ _ _ _ _); [|intros ?]
  | |- respects _ (ret _) => refine (respects_ret _ _)
  | |- respects _ (raise _) => refine (respects_raise _ _)
  | |- respects _ (lift _) => refine (respects_lift _ _)
  | |- respects _ get_trace => refine (respects_get_trace _)
  | |- respects _ get_active_mounts => refine (respects_get_active_mounts _)
  | |- respects _ get_mount_options_list =>
      refine (respects_get_mount_options_list _)
  | |- respects _ (try_except _ _) =>
      refine (respects_try_except _ _ _ _ _); [|intros ?]
  | |- respects _ (try_finally _ _) => refine (respects_try_finally _ _ _ _ _)
  | |- respects _ (for_each _ _) =>
      refine (respects_for_each _ _ _ _); intros ?
  | |- respects _ (if ?b then _ else _) => destruct b
  | |- respects _ (match ?x with _ => _ end) => destruct x
  end.

Ltac respects_auto := repeat (cbv zeta; respects_step).

(** ** External actions change the trace only *)

Create HintDb acts discriminated.

Section Acts.
Context (env : Env) (inp : Inputs).

Lemma emit_acts ev : respects only_acts (emit ev).
Proof. intros st. split; [done|]. by apply prefix_app_r. Qed.

Lemma call_acts argv : respects only_acts (call env argv).
Proof. unfold call. respects_auto. apply emit_acts. Qed.

Lemma check_call_acts argv : respects only_acts (check_call env argv).
Proof. unfold check_call. respects_auto; apply call_acts. Qed.

Lemma mount_acts dev target fstype opts :
  respects only_acts (mount env dev target fstype opts).
Proof. unfold mount. respects_auto. apply emit_acts. Qed.

Lemma makedirs_acts path : respects only_acts (makedirs env path).
Proof. unfold makedirs. respects_auto; apply emit_acts. Qed.

Lemma chmod_acts path : respects only_acts (chmod env path).
Proof. unfold chmod. respects_auto; apply emit_acts. Qed.

Lemma mkdtemp_acts prefix : respects only_acts (mkdtemp env prefix).
Proof. unfold mkdtemp. respects_auto; apply emit_acts. Qed.

Lemma err_acts {A} msg : respects only_acts (@err env A msg).
Proof.
  unfold err, err_unmount, os_path_ismount. respects_auto;
    apply call_acts.
Qed.

Lemma zfs_command_acts argv msg :
  respects only_acts (zfs_command env argv msg).
Proof. unfold zfs_command. respects_auto. apply check_call_acts. Qed.

Lemma mount_zfs_acts root p :
  respects only_acts (mount_zfs env inp root p).
Proof.
  unfold mount_zfs, local. respects_auto; apply zfs_command_acts.
Qed.

Lemma create_subvolumes_acts d l :
  respects only_acts (create_subvolumes env d l).
Proof.
  unfold create_subvolumes, os_path_exists. respects_auto;
    first [apply makedirs_acts|apply check_call_acts|apply chmod_acts].
Qed.

Lemma enable_swap_partition_acts l :
  respects only_acts (enable_swap_partition env l).
Proof.
  unfold enable_swap_partition. respects_auto. apply check_call_acts.
Qed.
End Acts.

Global Hint Resolve emit_acts call_acts check_call_acts mount_acts
  makedirs_acts chmod_acts mkdtemp_acts err_acts zfs_command_acts
  mount_zfs_acts create_subvolumes_acts enable_swap_partition_acts : acts.

(** What an external action leaves alone, any part of the stores keeps. *)
Lemma acts_same {X} (f : State -> X) {A} (c : M A) :
  (forall s s', stores s' = stores s -> f s' = f s) ->
  respects only_acts c -> respects (same f) c.
Proof. intros Hf. apply respects_weaken. intros s s' [H _]. by apply Hf. Qed.

(** ** Sorting *)





(** ** Rollback *)

Section Rollback.
Context (env : Env).

Lemma after_nil st : after st [] = st.
Proof. destruct st. unfold after. simpl. by rewrite app_nil_r. Qed.

Lemma after_after st evs evs' :
  after (after st evs) evs' = after st (evs ++ evs').
Proof. unfold after. simpl. by rewrite app_assoc. Qed.

Lemma call_eq argv st :
  call env argv st
  = (Ok (cmd_rc env (trace st) argv),
     after st [EvCmd argv (cmd_rc env (trace st) argv)]).
Proof. reflexivity. Qed.

Lemma err_unmount_eq p st :
  err_unmount env p st =
  if ismount env (trace st) p then
    let rc := cmd_rc env (trace st) ["umount"; "-v"; p] in
    if rc =? 0 then (Ok tt, after st [EvCmd ["umount"; "-v"; p] rc])
    else
      (Ok tt,
       after st [EvCmd ["umount"; "-v"; p] rc;
                 EvCmd ["umount"; "-v"; "-l"; p]
                       (cmd_rc env (trace st ++ [EvCmd ["umount"; "-v"; p] rc])
                               ["umount"; "-v"; "-l"; p])])
  else (Ok tt, st).
Proof.
  cbv beta iota zeta delta [err_unmount os_path_ismount bind get_trace ret].
  destruct (ismount env (trace st) p); [|done].
  rewrite call_eq.
  destruct (_ =? 0); cbn [negb]; [done|].
  by rewrite call_eq, after_after.
Qed.

Lemma err_unmount_loop l st :
  exists evs,
    for_each l (err_unmount env) st = (Ok tt, after st evs)
    /\ unwinds env (trace st) l evs.
Proof.
  revert st. induction l as [|p l IH]; intros st.
  - exists []. rewrite after_nil. split; [done|constructor].
  - cbn [for_each]. unfold bind. rewrite err_unmount_eq.
    destruct (ismount env (trace st) p) eqn:Hm.
    + cbv zeta.
      destruct (cmd_rc env (trace st) ["umount"; "-v"; p] =? 0) eqn:Hrc.
      * apply Z.eqb_eq in Hrc. rewrite Hrc.
        destruct (IH (after st [EvCmd ["umount"; "-v"; p] 0]))
          as (evs & E & U).
        exists (EvCmd ["umount"; "-v"; p] 0 :: evs).
        rewrite E, after_after. split; [done|]. by constructor.
      * apply Z.eqb_neq in Hrc.
        match goal with
        | |- context [after st ?l] =>
            destruct (IH (after st l)) as (evs & E & U);
            exists (l ++ evs)%list
        end.
        rewrite E, after_after. split; [done|].
        eapply unwinds_detach; eauto.
    + destruct (IH st) as (evs & E & U). exists evs. split; [done|].
      by constructor.
Qed.

Lemma err_outcome {A} msg st :
  exists evs,
    @err env A msg st = (Raise (Exception msg), after st evs)
    /\ unwinds env (trace st) (sorted_reverse (active_mounts st)) evs.
Proof.
  destruct (err_unmount_loop (sorted_reverse (active_mounts st)) st)
    as (evs & E & U).
  exists evs. split; [|done].
  unfold err, bind, get_active_mounts. by rewrite E.
Qed.
End Rollback.


Section Exec.
Context (env : Env) (inp : Inputs).

Lemma bind_ok {A B} (c : M A) (k : A -> M B) st a st1 :
  c st = (Ok a, st1) -> bind c k st = k a st1.
Proof. intros H. unfold bind. by rewrite H. Qed.

Lemma bind_raise {A B} (c : M A) (k : A -> M B) st e st1 :
  c st = (Raise e, st1) -> bind c k st = (Raise e, st1).
Proof. intros H. unfold bind. by rewrite H. Qed.

Lemma makedirs_eq path st :
  makedirs env path st =
  (if makedirs_ok env (trace st) path then Ok tt else Raise (OSError path),
   after st [EvMakedirs path (makedirs_ok env (trace st) path)]).
Proof.
  cbv beta iota zeta delta [makedirs bind get_trace emit ret raise].
  by destruct (makedirs_ok env (trace st) path).
Qed.

Lemma mount_eq dev target fstype opts st :
  mount env dev target fstype opts st =
  (Ok (mount_rc env (trace st) dev target fstype opts),
   after st [EvMount dev target fstype opts
                     (mount_rc env (trace st) dev target fstype opts)]).
Proof. reflexivity. Qed.

End Exec.

Lemma str_in_In x l : str_in x l = true <-> In x l.
Proof.
  unfold str_in. rewrite existsb_exists. split.
  - intros (y & Hy & E). apply String.eqb_eq in E. by subst.
  - intros H. exists x. split; [done|apply String.eqb_refl].
Qed.



Lemma acts_same_am {A} (c : M A) :
  respects only_acts c -> respects (same active_mounts) c.
Proof. apply acts_same. unfold stores. by intros s s' [= -> _ _]. Qed.

Lemma acts_same_mol {A} (c : M A) :
  respects only_acts c -> respects (same mount_options_list) c.
Proof. apply acts_same. unfold stores. by intros s s' [= _ -> _]. Qed.

Lemma acts_same_gs {A} (c : M A) :
  respects only_acts c -> respects (same globalstorage) c.
Proof. apply acts_same. unfold stores. by intros s s' [= _ _ ->]. Qed.

Ltac same_leaf :=
  first [ by intros ?
        | apply acts_same_am; solve [eauto with acts]
        | apply acts_same_mol; solve [eauto with acts]
        | apply acts_same_gs; solve [eauto with acts] ].

Section Ledger.
Context (env : Env) (inp : Inputs).

Lemma get_btrfs_subvolumes_same_am ps :
  respects (same active_mounts) (get_btrfs_subvolumes inp ps).
Proof. unfold get_btrfs_subvolumes. respects_auto; same_leaf. Qed.

Lemma mount_subvolumes_same_am root dev fstype opts l :
  respects (same active_mounts) (mount_subvolumes env root dev fstype opts l).
Proof. unfold mount_subvolumes. respects_auto; same_leaf. Qed.

Lemma mkdtemp_eq prefix st :
  mkdtemp env prefix st
  = (Ok (temp_dir env (trace st) prefix),
     after st [EvTempDir (temp_dir env (trace st) prefix)]).
Proof. reflexivity. Qed.

Lemma am_append_eq path st :
  am_append path st
  = (Ok tt, {| trace := trace st;
               active_mounts := (active_mounts st ++ [path])%list;
               mount_options_list := mount_options_list st;
               globalstorage := globalstorage st |}).
Proof. reflexivity. Qed.

Lemma keeps_ledger_same {A} (c : M A) :
  respects (same active_mounts) c -> keeps_ledger env c.
Proof.
  intros H st _. specialize (H st). unfold same in H.
  split; [done|by left].
Qed.

Lemma keeps_ledger_bind {A B} (c : M A) (k : A -> M B) :
  keeps_ledger env c -> (forall a, keeps_ledger env (k a)) ->
  keeps_ledger env (bind c k).
Proof.
  intros Hc Hk st Hf. unfold bind. destruct (Hc st Hf) as [Hok Hany].
  destruct (c st) as [[a|e] st1]; cbn [fst snd] in *.
  - specialize (Hok I). specialize (Hk a st1). rewrite Hok in Hk.
    by apply Hk.
  - split; [done|exact Hany].
Qed.

Lemma check_call_eq argv st :
  check_call env argv st =
  (if cmd_rc env (trace st) argv =? 0 then Ok tt
   else Raise (CalledProcessError argv (cmd_rc env (trace st) argv)),
   after st [EvCmd argv (cmd_rc env (trace st) argv)]).
Proof.
  unfold check_call. rewrite (bind_ok _ _ _ _ _ (call_eq _ _ _)).
  by destruct (_ =? 0).
Qed.

(** The [finally] of lines 323-326 takes the scratch directory off the
    ledger, unless its unmount fails. *)
Lemma release_setup_dir_ledger d st :
  let x := release_setup_dir env d st in
  (fst x = Ok tt
   /\ active_mounts (snd x)
      = if str_in d (active_mounts st)
        then remove_first d (active_mounts st) else active_mounts st)
  \/ (~ is_ok (fst x) /\ active_mounts (snd x) = active_mounts st).
Proof.
  unfold release_setup_dir, os_path_ismount.
  erewrite bind_ok by reflexivity.
  destruct (ismount env (trace st) d).
  - pose proof (check_call_eq ["umount"; "-v"; d] st) as Hcc.
    destruct (_ =? 0).
    + erewrite bind_ok by exact Hcc. erewrite bind_ok by reflexivity.
      cbn [active_mounts after]. left. by destruct (str_in _ _).
    + erewrite bind_raise by exact Hcc. right. cbn. tauto.
  - erewrite bind_ok by reflexivity. erewrite bind_ok by reflexivity.
    left. by destruct (str_in _ _).
Qed.

Lemma remove_first_fresh d am :
  d ∉ am -> remove_first d (am ++ [d]) = am.
Proof.
  induction am as [|y am IH]; simpl; intros Hd.
  - by rewrite String.eqb_refl.
  - apply not_elem_of_cons in Hd as [Hne Hd].
    destruct (String.eqb_spec y d); [congruence|]. by rewrite IH.
Qed.

(** The [with] block of lines 307-326. *)
Lemma scratch_block_keeps_ledger dev fstype l :
  keeps_ledger env
    (with_TemporaryDirectory env "calam-btrfs-" (fun setup_dir =>
       am_append setup_dir ;;;
       let* rc := mount env dev setup_dir fstype "defaults" in
       (if negb (rc =? 0)
        then err env ("Cannot mount btrfs for subvolume creation " ++ dev)
        else ret tt) ;;;
       try_finally (create_subvolumes env setup_dir l)
                   (release_setup_dir env setup_dir))).
Proof.
  intros st Hfresh. unfold with_TemporaryDirectory.
  erewrite bind_ok by apply mkdtemp_eq.
  set (d := temp_dir env (trace st) "calam-btrfs-").
  unfold try_finally at 1.
  erewrite bind_ok by apply am_append_eq.
  erewrite bind_ok by apply mount_eq.
  match goal with |- context [negb ?b] => destruct b end; cbn [negb].
  - (* the scratch mount succeeded *)
    erewrite bind_ok by reflexivity.
    unfold try_finally.
    match goal with |- context [create_subvolumes env d l ?s] =>
      pose proof (acts_same_am _ (create_subvolumes_acts env d l) s) as Hc;
      destruct (create_subvolumes env d l s) as [r st1]
    end.
    unfold same in Hc. cbn in Hc.
    destruct (release_setup_dir_ledger d st1) as [[Hr Ham]|[Hr Ham]];
      cbv zeta in Hr, Ham;
      destruct (release_setup_dir env d st1) as [[[]|e] st2];
      cbn [fst snd] in *; try done;
      unfold ledger_kept, emit; cbn [fst snd active_mounts].
    + rewrite Hc in Ham.
      assert (Hin : str_in d (active_mounts st ++ [d]) = true).
      { apply str_in_In, in_or_app. right. by left. }
      rewrite Hin, remove_first_fresh in Ham by apply Hfresh.
      split; [done|by left].
    + split; [done|]. right. exists (trace st). by rewrite Ham, Hc.
  - (* the scratch mount failed *)
    match goal with |- context [bind (err env ?m) _ ?s] =>
      destruct (@err_outcome env unit m s) as (evs & E & _)
    end.
    erewrite bind_raise by exact E.
    unfold ledger_kept, emit; cbn [fst snd active_mounts after].
    split; [done|]. right. by exists (trace st).
Qed.

Lemma mount_btrfs_root_keeps_ledger root dev fstype opts ps :
  keeps_ledger env (mount_btrfs_root env inp root dev fstype opts ps).
Proof.
  unfold mount_btrfs_root.
  apply keeps_ledger_bind;
    [apply keeps_ledger_same, get_btrfs_subvolumes_same_am|intros l].
  apply keeps_ledger_bind; [apply keeps_ledger_same; same_leaf|intros _].
  apply keeps_ledger_bind; [apply scratch_block_keeps_ledger|intros _].
  apply keeps_ledger_same.
  respects_auto; first [apply mount_subvolumes_same_am|same_leaf].
Qed.

(** What [mount_partition] does once the target is on the ledger. *)
Lemma mount_partition_keeps_ledger root p ps rules efi raw :
  mountPoint p = Some raw -> (raw =? "")%string = false ->
  forall st,
    scratch_fresh env (active_mounts st ++ [root ++ raw]) ->
    ledger_kept env (active_mounts st ++ [root ++ raw])
      (mount_partition env inp root p ps rules efi st).
Proof.
  intros Hmp Hraw st Hfresh. unfold mount_partition.
  rewrite Hmp. erewrite bind_ok by reflexivity. rewrite Hraw.
  erewrite bind_ok by apply am_append_eq.
  match goal with |- ledger_kept _ _ (?c ?s) =>
    change (active_mounts st ++ [(root ++ raw)%string])%list
      with (active_mounts s);
    cut (keeps_ledger env c); [intros H; by apply H|]
  end.
  unfold getitem.
  repeat first
    [ apply mount_btrfs_root_keeps_ledger
    | apply keeps_ledger_same; solve [same_leaf]
    | apply keeps_ledger_bind; [|intros ?]
    | match goal with
      | |- keeps_ledger _ (if ?b then _ else _) => destruct b
      | |- keeps_ledger _ (match ?x with _ => _ end) => destruct x
      end
    | apply keeps_ledger_same; respects_auto; same_leaf ].
Qed.
End Ledger.

Section LedgerLoop.
Context (env : Env) (inp : Inputs).

(** The ledger along a sequence of partitions that all have a mount
    point. *)
Lemma mount_loop_ledger root ps rules efi todo :
  Forall (fun p => truthy (mountPoint p) = true) todo ->
  forall st,
    scratch_fresh env (active_mounts st ++ map (target_path root) todo) ->
    let x := for_each todo
               (fun p => mount_partition env inp root p ps rules efi) st in
    (is_ok (fst x) ->
     active_mounts (snd x)
     = (active_mounts st ++ map (target_path root) todo)%list)
    /\ exists started tail,
         started `prefix_of` todo
         /\ active_mounts (snd x)
            = (active_mounts st ++ map (target_path root) started ++ tail)%list
         /\ (tail = [] \/ exists tr, tail = [temp_dir env tr "calam-btrfs-"])
         /\ (~ is_ok (fst x) -> started <> []).
Proof.
  induction 1 as [|p todo Hp _ IH]; intros st Hfresh; cbn zeta.
  - cbn. rewrite app_nil_r. split; [done|].
    exists [], []. rewrite !app_nil_r. split; [done|]. split; [done|].
    split; [by left|]. tauto.
  - destruct (mountPoint p) as [raw|] eqn:Hmp; [|done].
    cbn in Hp. apply negb_true_iff in Hp.
    assert (Ht : target_path root p = root ++ raw)
      by (unfold target_path, mountPoint_key; by rewrite Hmp).
    cbn [for_each map]. rewrite Ht.
    assert (Hfresh1 : scratch_fresh env (active_mounts st ++ [root ++ raw])).
    { intros tr Hin. apply (Hfresh tr). cbn [map]. rewrite Ht.
      apply elem_of_app in Hin as [Hin|Hin]; apply elem_of_app; [by left|].
      right. apply list_elem_of_singleton in Hin as ->. by left. }
    destruct (mount_partition_keeps_ledger env inp root p ps rules efi raw
                Hmp Hp st Hfresh1) as [Hok Hany].
    unfold bind.
    destruct (mount_partition env inp root p ps rules efi st)
      as [[[]|e] st1]; cbn [fst snd] in *.
    + specialize (Hok I).
      destruct (IH st1)
        as [IHok (started & tail & Hpre & Ham & Htail & _)].
      { rewrite Hok, <- app_assoc. cbn [map] in Hfresh.
        by rewrite Ht in Hfresh. }
      split.
      * intros H. rewrite (IHok H), Hok, <- app_assoc. done.
      * exists (p :: started), tail. split; [by apply prefix_cons|].
        split; [|done]. rewrite Ham, Hok, <- app_assoc. cbn [map app].
        by rewrite Ht.
    + split; [done|]. destruct Hany as [Ham|[tr Ham]].
      * exists [p], []. split; [by apply prefix_cons, prefix_nil|].
        split; [|split; [by left|done]]. cbn [map app]. by rewrite Ht, Ham.
      * exists [p], [temp_dir env tr "calam-btrfs-"].
        split; [by apply prefix_cons, prefix_nil|].
        split; [|split; [right; by exists tr|done]]. cbn [map app].
        by rewrite Ht, Ham, <- app_assoc.
Qed.
End LedgerLoop.

(** Claim C3, as amended. Along a sequence of partitions that all have a
    non-empty mount point, the ledger gets the target path of each partition
    when the protocol starts on it, before the directory is created and
    before any mount is attempted, whatever the filesystem kind. When the
    whole sequence returns normally, the ledger is the old one followed by
    the target paths of all of them, in order. When it fails, the ledger is
    the old one followed by the target paths of the partitions started on,
    the one that failed included, with at most the Btrfs scratch directory
    after them. The scratch directory is taken to be a fresh path. *)
Theorem ledger_entry_precedes_mount (env : Env) (inp : Inputs)
    (root : string) (ps : list Partition)
    (rules : option (list MountOptionRule)) (efi_location : option string)
    (todo : list Partition) (st : State) :
  Forall (fun p => truthy (mountPoint p) = true) todo ->
  scratch_fresh env (active_mounts st ++ map (target_path root) todo) ->
  let x := for_each todo
             (fun p => mount_partition env inp root p ps rules efi_location)
             st in
  (is_ok (fst x) ->
   active_mounts (snd x)
   = (active_mounts st ++ map (target_path root) todo)%list)
  /\ exists started tail,
       started `prefix_of` todo
       /\ active_mounts (snd x)
          = (active_mounts st ++ map (target_path root) started ++ tail)%list
       /\ (tail = [] \/ exists tr, tail = [temp_dir env tr "calam-btrfs-"])
       /\ (~ is_ok (fst x) -> started <> []).
Proof.
  intros Hall Hfresh.
  exact (mount_loop_ledger env inp root ps rules efi_location todo Hall st
           Hfresh).
Qed.

Lemma mounted_at_mono tr tr' target :
  tr `prefix_of` tr' -> mounted_at tr target -> mounted_at tr' target.
Proof.
  intros [evs ->] (dev & fstype & opts & H). exists dev, fstype, opts.
  apply elem_of_app. by left.
Qed.

Global Instance entries_follow_mounts_preorder root :
  PreOrder (entries_follow_mounts root).
Proof.
  split.
  - intros s. exists []. by rewrite app_nil_r.
  - intros s1 s2 s3 (n1 & E1 & P1 & F1) (n2 & E2 & P2 & F2).
    exists (n1 ++ n2)%list. rewrite E2, E1, <- app_assoc.
    split; [done|]. split; [by etrans|].
    apply Forall_app. split; [|done].
    eapply Forall_impl; [exact F1|]. intros e. by apply mounted_at_mono.
Qed.

Lemma acts_follow root {A} (c : M A) :
  respects only_acts c -> respects (entries_follow_mounts root) c.
Proof.
  apply respects_weaken. intros s s' [Hs Ht]. exists [].
  unfold stores in Hs. injection Hs as _ -> _. by rewrite app_nil_r.
Qed.

Global Instance before_mount_preorder : PreOrder before_mount.
Proof.
  split.
  - intros s. split; [done|]. exists []. by rewrite app_nil_r.
  - intros s1 s2 s3 [M1 (e1 & T1 & F1)] [M2 (e2 & T2 & F2)].
    split; [congruence|]. exists (e1 ++ e2)%list.
    rewrite T2, T1, <- app_assoc, forallb_app, F1, F2. done.
Qed.

Section Options.
Context (env : Env) (inp : Inputs).

Lemma emit_before_mount ev :
  is_mount_event ev = false -> respects before_mount (emit ev).
Proof.
  intros H st. split; [done|]. exists [ev]. cbn. by rewrite H.
Qed.

Lemma quiet_before_mount {A} (c : M A) :
  (forall st, mount_options_list (snd (c st)) = mount_options_list st
              /\ trace (snd (c st)) = trace st) ->
  respects before_mount c.
Proof.
  intros H st. destruct (H st) as [Hm Ht]. split; [done|]. exists [].
  by rewrite Ht, app_nil_r.
Qed.

Lemma call_before_mount argv : respects before_mount (call env argv).
Proof. unfold call. respects_auto. by apply emit_before_mount. Qed.

Lemma makedirs_before_mount path :
  respects before_mount (makedirs env path).
Proof. unfold makedirs. respects_auto; by apply emit_before_mount. Qed.

Lemma err_before_mount {A} msg : respects before_mount (@err env A msg).
Proof.
  unfold err, err_unmount, os_path_ismount. respects_auto;
    apply call_before_mount.
Qed.

Lemma mount_zfs_before_mount root p :
  respects before_mount (mount_zfs env inp root p).
Proof.
  unfold mount_zfs, local, zfs_command, check_call. respects_auto;
    apply call_before_mount.
Qed.

Lemma gs_insert_follow root k v :
  respects (entries_follow_mounts root) (gs_insert k v).
Proof. intros st. exists []. cbn. by rewrite app_nil_r. Qed.

Lemma mount_subvolumes_follow root dev fstype opts l :
  respects (entries_follow_mounts root)
           (mount_subvolumes env root dev fstype opts l).
Proof.
  unfold mount_subvolumes. respects_step. rename x into s.
  destruct (sv_mountPoint s =? "/")%string; [apply gs_insert_follow|].
  respects_step.
  { destruct (negb _); [respects_step|]. apply acts_follow, err_acts. }
  rename a into sub_opts.
  respects_step; [apply acts_follow, makedirs_acts|].
  intros st. rewrite (bind_ok _ _ _ _ _ (mount_eq _ _ _ _ _ _)).
  destruct (_ =? 0) eqn:Hrc.
  - apply Z.eqb_eq in Hrc. rewrite Hrc.
    exists [ {| mountpoint := sv_mountPoint s; option_string := opts |} ].
    cbn. split; [done|]. split; [by apply prefix_app_r|].
    constructor; [|done]. exists dev, fstype, sub_opts.
    apply elem_of_app. right. by left.
  - match goal with |- context [err env ?m ?s] =>
      pose proof (acts_follow root _ (@err_acts env unit m) s) as H
    end.
    etrans; [|exact H]. exists []. cbn. rewrite app_nil_r.
    split; [done|]. split; [by apply prefix_app_r|done].
Qed.

Lemma quiet_follow root {A} (c : M A) :
  (forall st, mount_options_list (snd (c st)) = mount_options_list st
              /\ trace (snd (c st)) = trace st) ->
  respects (entries_follow_mounts root) c.
Proof.
  intros H st. destruct (H st) as [Hm Ht]. exists [].
  by rewrite Hm, Ht, app_nil_r.
Qed.

Lemma mount_btrfs_root_follow root dev fstype opts ps :
  respects (entries_follow_mounts root)
           (mount_btrfs_root env inp root dev fstype opts ps).
Proof.
  unfold mount_btrfs_root, get_btrfs_subvolumes, with_TemporaryDirectory,
    release_setup_dir, os_path_ismount.
  respects_auto;
    first [ apply acts_follow; solve [eauto with acts]
          | apply mount_subvolumes_follow
          | apply quiet_follow; intros ?; split; reflexivity ].
Qed.

(** Stepping over the first part of a sequence, from a state [st] that
    is related to where the whole began. *)
Lemma step_respects (R : relation State) `{!PreOrder R} {A B}
    (c : M A) (k : A -> M B) (P : result B * State -> Prop) st0 st :
  respects R c -> R st0 st ->
  (forall a st1, c st = (Ok a, st1) -> R st0 st1 -> P (k a st1)) ->
  (forall e st1, R st0 st1 -> P (Raise e, st1)) ->
  P (bind c k st).
Proof.
  intros Hc H0 Hok Hraise. specialize (Hc st). unfold bind.
  destruct (c st) as [[a|e] st1]; cbn [snd] in Hc.
  - apply Hok; [done|by etrans].
  - apply Hraise. by etrans.
Qed.
End Options.

(** Claim C5, as amended. The options list only grows. As long as it has
    gained nothing, the mount executor has not been called. What it gains
    for a partition is first the entry of the partition itself, appended
    once its options are resolved and before its mount is attempted, and
    then the entries of Btrfs subvolumes, each appended after its mount
    under the install root succeeded. Unformatted and ZFS partitions add no
    entry; for any other partition a normal return has added one. *)
Theorem options_entry_precedes_mount (env : Env) (inp : Inputs)
    (root : string) (p : Partition) (ps : list Partition)
    (rules : option (list MountOptionRule)) (efi_location : option string)
    (st : State) (raw : string) :
  mountPoint p = Some raw -> raw <> "" ->
  let x := mount_partition env inp root p ps rules efi_location st in
  let fstype := lower (default "" (fs p)) in
  exists new,
    mount_options_list (snd x) = (mount_options_list st ++ new)%list
    /\ (new = [] /\ before_mount st (snd x)
        \/ exists opts subs,
             new = {| mountpoint := raw; option_string := opts |} :: subs
             /\ Forall (fun e => mounted_at (trace (snd x))
                                            (root ++ mountpoint e)) subs)
    /\ (fstype = "unformatted" \/ fstype = "zfs" -> new = [])
    /\ (is_ok (fst x) -> fstype <> "unformatted" -> fstype <> "zfs" ->
        new <> []).
Proof.
  intros Hmp Hraw x fstype.
  set (P := fun y : result unit * State =>
    exists new,
      mount_options_list (snd y) = (mount_options_list st ++ new)%list
      /\ (new = [] /\ before_mount st (snd y)
          \/ exists opts subs,
               new = {| mountpoint := raw; option_string := opts |} :: subs
               /\ Forall (fun e => mounted_at (trace (snd y))
                                              (root ++ mountpoint e)) subs)
      /\ (fstype = "unformatted" \/ fstype = "zfs" -> new = [])
      /\ (is_ok (fst y) -> fstype <> "unformatted" -> fstype <> "zfs" ->
          new <> [])).
  change (P x).
  assert (Hfail : forall e st1, before_mount st st1 -> P (Raise e, st1)).
  { intros e st1 H. exists []. cbn. rewrite (proj1 H), app_nil_r. tauto. }
  subst x. unfold mount_partition. rewrite Hmp.
  erewrite bind_ok by reflexivity.
  apply String.eqb_neq in Hraw. rewrite Hraw.
  eapply (step_respects before_mount);
    [by apply quiet_before_mount|reflexivity| |exact Hfail].
  intros _ st1 _ H1.
  eapply (step_respects before_mount);
    [apply makedirs_before_mount|exact H1| |exact Hfail].
  intros _ st2 _ H2.
  eapply (step_respects before_mount);
    [apply call_before_mount|exact H2| |exact Hfail].
  intros _ st3 _ H3. fold fstype.
  destruct (String.eqb_spec fstype "unformatted") as [Hunf|Hunf].
  { exists []. cbn. rewrite (proj1 H3), app_nil_r. tauto. }
  eapply (step_respects before_mount); [|exact H3| |exact Hfail].
  { unfold getitem. destruct (device p); respects_step. }
  intros dev st4 _ H4.
  eapply (step_respects before_mount); [|exact H4| |exact Hfail].
  { respects_auto. apply err_before_mount. }
  intros fstype' st5 Hc H5.
  assert (Hz : fstype' = "zfs" <-> fstype = "zfs").
  { revert Hc. destruct (str_in fstype legacy_filesystems) eqn:Hleg.
    - destruct (blocked fstype raw efi_location).
      + match goal with |- context [bind (err env ?m) _ ?s] =>
          destruct (@err_outcome env unit m s) as (evs & E & _)
        end.
        by rewrite (bind_raise _ _ _ _ _ E).
      + erewrite bind_ok by reflexivity. intros [= <- _].
        apply str_in_In in Hleg. simpl in Hleg.
        destruct Hleg as [<-|[<-|[<-|[<-|[<-|[]]]]]]; by cbn.
    - by intros [= <- _]. }
  clear Hc.
  destruct (String.eqb_spec fstype' "zfs") as [Hzfs|Hzfs].
  { pose proof (mount_zfs_before_mount env inp root p st5) as Hm.
    assert (H6 : before_mount st (snd (mount_zfs env inp root p st5)))
      by (by etrans).
    exists []. rewrite (proj1 H6), app_nil_r.
    split; [done|]. split; [by left|]. split; [done|].
    intros _ _ Hn. exfalso. apply Hn, Hz, Hzfs. }
  destruct (get_mount_options env fstype' rules p efi_location) as [opts|e].
  2:{ erewrite bind_raise by reflexivity. by apply Hfail. }
  erewrite bind_ok by reflexivity. erewrite bind_ok by reflexivity.
  match goal with |- P (?c ?s) =>
    assert (Hrest : respects (entries_follow_mounts root) c);
    [|destruct (Hrest s) as (subs & Hm & _ & Hsubs)]
  end.
  { destruct (negb _); [|apply mount_btrfs_root_follow].
    respects_auto; apply acts_follow; eauto with acts. }
  exists ({| mountpoint := raw; option_string := opts |} :: subs).
  cbn [mount_options_list] in Hm. rewrite Hm, <- app_assoc.
  split; [by rewrite (proj1 H5)|].
  split; [right; eauto|]. split; [|done].
  intros [?|?]; [done|]. exfalso. apply Hzfs, Hz. done.
Qed.



Section Publishing.
Context (env : Env) (inp : Inputs).

End Publishing.


(** ** ZFS and concrete runs *)

(** An extra mount with an empty option list resolves to the empty
    string. *)
Lemma get_mount_options_explicit_witness :
  get_mount_options (Scenario.kernel [] ["sda"]) "ext4"
    (Some [ScenarioRules.btrfs_rule]) ScenarioRules.no_options None = Ok ""
  /\ get_mount_options (Scenario.kernel [] ["sda"]) "ext4"
       (Some [ScenarioRules.btrfs_rule]) ScenarioRules.no_options None
     <> Ok "defaults".
Proof.
  apply (get_mount_options_explicit (Scenario.kernel [] ["sda"]) "ext4"
           (Some [ScenarioRules.btrfs_rule]) ScenarioRules.no_options None []);
    reflexivity.
Defined.


(** Scenario A: a Btrfs partition on a disk that does not rotate. *)
Lemma get_mount_options_device_class_witness :
  get_mount_options (Scenario.kernel [] ["sda"]) "btrfs"
    (Some [ScenarioRules.btrfs_rule])
    (Scenario.partition "/dev/sda1" "btrfs" "/") None
  = Ok "noatime,ssd".
Proof.
  apply (get_mount_options_device_class (Scenario.kernel [] ["sda"]) "btrfs"
           [ScenarioRules.btrfs_rule]
           (Scenario.partition "/dev/sda1" "btrfs" "/") None
           ScenarioRules.btrfs_rule).
  - reflexivity.
  - intros H. discriminate H.
  - reflexivity.
Defined.

(** Scenario C: a partition at [/home] and the default layout. *)
Lemma get_btrfs_subvolumes_filter_witness :
  get_btrfs_subvolumes
    (Scenario.inputs [] [])
    [Scenario.partition "/dev/sda1" "btrfs" "/";
     Scenario.partition "/dev/sda2" "ext4" "/home"] initial_state
  = (Ok [ {| sv_mountPoint := "/"; subvolume := "/@" |} ], initial_state).
Proof.
  destruct (get_btrfs_subvolumes_filter (Scenario.inputs [] [])
              [Scenario.partition "/dev/sda1" "btrfs" "/";
               Scenario.partition "/dev/sda2" "ext4" "/home"] initial_state)
    as (kept & st' & _ & _ & _ & H).
  apply H; [reflexivity|reflexivity|].
  split; [discriminate|]. split; [discriminate|].
  exists (Scenario.partition "/dev/sda2" "ext4" "/home").
  split; [|reflexivity]. apply list_elem_of_In. right. left. reflexivity.
Defined.


(** A ZFS partition leaves its target path on the ledger. *)
Lemma ledger_entry_precedes_mount_witness :
  active_mounts
    (snd (for_each [Scenario.partition "/dev/sda1" "zfs" "/data"]
            (fun p => mount_partition (Scenario.kernel [] [])
                        (Scenario.zfs_inputs "/data") Scenario.root p
                        [Scenario.partition "/dev/sda1" "zfs" "/data"]
                        None None)
            initial_state))
  = ["/tmp/calamares-root-x/data"].
Proof.
  refine (proj1 (ledger_entry_precedes_mount (Scenario.kernel [] [])
            (Scenario.zfs_inputs "/data") Scenario.root
            [Scenario.partition "/dev/sda1" "zfs" "/data"] None None
            [Scenario.partition "/dev/sda1" "zfs" "/data"]
            initial_state _ _) _).
  - repeat constructor.
  - intros tr H. apply list_elem_of_In in H. simpl in H.
    destruct H as [H|[]]. discriminate H.
  - vm_compute. exact I.
Defined.

(** A ZFS partition adds nothing to the options list. *)
Lemma options_entry_precedes_mount_witness :
  exists new,
    mount_options_list (snd Scenario.zfs_mounted) = ([] ++ new)%list
    /\ new = [].
Proof.
  destruct (options_entry_precedes_mount (Scenario.kernel [] [])
              (Scenario.zfs_inputs "/data") Scenario.root
              (Scenario.partition "/dev/sda1" "zfs" "/data")
              [Scenario.partition "/dev/sda1" "zfs" "/data"] None None
              initial_state "/data" eq_refl ltac:(discriminate))
    as (new & Hm & _ & Hz & _).
  exists new. split; [exact Hm|]. apply Hz. right. reflexivity.
Defined.

Section Zfs.
Context (env : Env) (inp : Inputs).

Lemma find_zfs_pool_none pools mp :
  (forall z, z ∈ pools -> zp_mountpoint z <> mp) ->
  find_zfs_pool pools mp = None.
Proof.
  unfold find_zfs_pool. generalize (@None (string * string)).
  induction pools as [|z pools IH]; intros acc H; [done|].
  simpl. rewrite IH by (intros z' Hz'; apply H; by right).
  destruct (String.eqb_spec (zp_mountpoint z) mp) as [E|]; [|done].
  exfalso. by apply (H z); [left|].
Qed.

(** Without pool information the protocol raises its internal error. *)
Lemma mount_zfs_without_pool_info root p st :
  gs_zfsPoolInfo inp = None \/ gs_zfsPoolInfo inp = Some [] ->
  mount_zfs env inp root p st
  = (Raise (ZfsException "Internal error mounting zfs datasets"), st).
Proof. unfold mount_zfs. by intros [-> | ->]. Qed.
End Zfs.

(** Claim C8. With a pool list that is not empty and has no entry for the
    mount point of the partition, [mount_zfs] issues no command and ends by
    reading the local variable [pool_name], which no iteration of the
    search loop has bound: the error is the interpreter's, not the
    protocol's internal error. *)
Theorem mount_zfs_unmatched_pool (env : Env) (inp : Inputs) (root : string)
    (p : Partition) (st : State) (pools : list ZfsPoolInfo) (mp : string) :
  gs_zfsPoolInfo inp = Some pools -> pools <> [] ->
  mountPoint p = Some mp ->
  (forall z, z ∈ pools -> zp_mountpoint z <> mp) ->
  mount_zfs env inp root p st = (Raise (UnboundLocalError "pool_name"), st).
Proof.
  intros Hinfo Hne Hmp Hnone. unfold mount_zfs. rewrite Hinfo, Hmp.
  destruct pools as [|z pools]; [done|].
  erewrite bind_ok by reflexivity.
  by rewrite find_zfs_pool_none.
Qed.

(** A pool for [/other] only, a partition at [/data]. *)
Lemma mount_zfs_unmatched_pool_witness :
  mount_zfs (Scenario.kernel [] []) (Scenario.zfs_inputs "/other")
    Scenario.root (Scenario.partition "/dev/sda1" "zfs" "/data") initial_state
  = (Raise (UnboundLocalError "pool_name"), initial_state).
Proof.
  apply (mount_zfs_unmatched_pool (Scenario.kernel [] [])
           (Scenario.zfs_inputs "/other") Scenario.root
           (Scenario.partition "/dev/sda1" "zfs" "/data") initial_state
           [ {| zp_mountpoint := "/other"; poolName := "zpcala";
                dsName := "data" |} ] "/data").
  - reflexivity.
  - discriminate.
  - reflexivity.
  - intros z H. apply list_elem_of_In in H. simpl in H.
    destruct H as [<-|[]]. discriminate.
Defined.



(** Against C3 as stated. The only mount fails and its target is on the
    ledger; and a ZFS partition has put its target on the ledger. *)
Lemma ledger_holds_unmounted_paths :
  (fst Scenario.root_fails = Raise (Exception "Cannot mount /dev/sda1")
   /\ mounted_targets (trace (snd Scenario.root_fails)) = []
   /\ active_mounts (snd Scenario.root_fails) = ["/tmp/calamares-root-x/"])
  /\ (fst Scenario.zfs_mounted = Ok tt
      /\ active_mounts (snd Scenario.zfs_mounted)
         = ["/tmp/calamares-root-x/data"]).
Proof. vm_compute. repeat split. Qed.

(** Against C5 as stated. The only mount fails and the options list holds
    its entry; and a ZFS partition that was mounted has no entry. *)
Lemma options_list_holds_failed_mount :
  (fst Scenario.root_fails = Raise (Exception "Cannot mount /dev/sda1")
   /\ mounted_targets (trace (snd Scenario.root_fails)) = []
   /\ mount_options_list (snd Scenario.root_fails)
      = [ {| mountpoint := "/"; option_string := "defaults" |} ])
  /\ (fst Scenario.zfs_mounted = Ok tt
      /\ mount_options_list (snd Scenario.zfs_mounted) = []).
Proof. vm_compute. repeat split. Qed.

(** Against C6 as stated. With a swap file chosen and a partition mounted
    at [/swap], the output of the planner has an entry whose mount point is
    that of the partition. *)
Lemma planner_keeps_appended_swap_entry :
  let s := {| sv_mountPoint := "/swap"; subvolume := "/@swap" |} in
  exists l,
    fst (get_btrfs_subvolumes Scenario.swap_file_inputs
                              Scenario.swap_partitions initial_state) = Ok l
    /\ s ∈ l
    /\ sv_mountPoint s <> "/"
    /\ dedicated_mount Scenario.swap_partitions "/swap"
    /\ at_or_under (sv_mountPoint s) "/swap".
Proof.
  eexists. split; [vm_compute; reflexivity|].
  split; [apply list_elem_of_In; simpl; tauto|].
  split; [discriminate|]. split; [|by left].
  split; [discriminate|]. split; [discriminate|].
  eexists. split; [apply list_elem_of_In; right; left; reflexivity|reflexivity].
Qed.

(** * Further properties *)

(** ** Disk names *)

Lemma list_ascii_app (a b : string) :
  list_ascii_of_string (a ++ b)
  = (list_ascii_of_string a ++ list_ascii_of_string b)%list.
Proof. induction a as [|c a IH]; [done|]. rewrite append_cons. simpl. by rewrite IH. Qed.

Lemma drop_while_digit_app ds rest :
  Forall (fun c => is_digit c = true) ds ->
  match rest with [] => True | c :: _ => is_digit c = false end ->
  drop_while_digit (ds ++ rest) = rest.
Proof.
  induction 1 as [|c ds Hc _ IH]; intros Hrest; simpl.
  - destruct rest as [|c rest]; [done|]. simpl. by rewrite Hrest.
  - rewrite Hc. by apply IH.
Qed.

Lemma rev_digits ds :
  Forall (fun c => is_digit c = true) ds ->
  Forall (fun c => is_digit c = true) (rev ds).
Proof. intros H. by apply Forall_rev. Qed.

Lemma digit_not_newline c : is_digit c = true -> Ascii.eqb c "010"%char = false.
Proof.
  intros H. destruct (Ascii.eqb_spec c "010"%char) as [->|]; [|done].
  by vm_compute in H.
Qed.

Lemma digit_not_p c : is_digit c = true -> Ascii.eqb c "p"%char = false.
Proof.
  intros H. destruct (Ascii.eqb_spec c "p"%char) as [->|]; [|done].
  by vm_compute in H.
Qed.

(** [re.sub("[0-9]+$", "", name)] takes the trailing digits off. *)
Lemma re_sub_digits disk digits :
  all_digits digits ->
  last_char_not (fun c => is_digit c || is_newline c) disk ->
  re_sub_suffix false (disk ++ digits) = disk.
Proof.
  unfold all_digits, last_char_not, re_sub_suffix. intros Hd Hl.
  rewrite list_ascii_app, rev_app_distr.
  remember (rev (list_ascii_of_string digits)) as rd eqn:Erd0.
  remember (rev (list_ascii_of_string disk)) as rk eqn:Erk0.
  assert (Hrd : Forall (fun c => is_digit c = true) rd)
    by (subst rd; by apply Forall_rev).
  assert (Hdisk : string_of_list_ascii (rev rk) = disk).
  { subst rk. by rewrite rev_involutive, string_of_list_ascii_of_string. }
  assert (Hdrop : drop_while_digit (rd ++ rk) = rk).
  { apply drop_while_digit_app; [done|]. destruct rk as [|c rk]; [done|].
    by apply orb_false_iff in Hl as [? _]. }
  destruct rd as [|c rd].
  - (* no digits *)
    simpl. destruct rk as [|c rk].
    + simpl in Hdisk. subst disk.
      destruct digits as [|c ds]; [done|]. simpl in Erd0.
      symmetry in Erd0. by apply app_eq_nil in Erd0 as [_ ?].
    + apply orb_false_iff in Hl as [Hdig Hnl]. unfold is_newline in Hnl.
      rewrite Hnl. unfold strip_suffix_rev. simpl. rewrite Hdig.
      rewrite Nat.eqb_refl. exact Hdisk.
  - apply Forall_cons in Hrd as [Hc Hrd].
    cbn [app]. rewrite (digit_not_newline c Hc).
    unfold strip_suffix_rev.
    change (c :: (rd ++ rk)%list) with ((c :: rd) ++ rk)%list.
    rewrite Hdrop.
    replace (length rk =? length ((c :: rd) ++ rk))%nat with false.
    + exact Hdisk.
    + symmetry. apply Nat.eqb_neq. rewrite length_app. simpl. lia.
Qed.

(** [re.sub("p[0-9]+$", "", name)] takes a trailing [p] and digits off. *)
Lemma re_sub_p_digits disk digits :
  all_digits digits -> digits <> "" ->
  re_sub_suffix true (disk ++ "p" ++ digits) = disk.
Proof.
  unfold all_digits, re_sub_suffix. intros Hd Hne.
  rewrite !list_ascii_app, !rev_app_distr. cbn [list_ascii_of_string rev app].
  remember (rev (list_ascii_of_string digits)) as rd eqn:Erd0.
  remember (rev (list_ascii_of_string disk)) as rk eqn:Erk0.
  assert (Hrd : Forall (fun c => is_digit c = true) rd)
    by (subst rd; by apply Forall_rev).
  assert (Hdisk : string_of_list_ascii (rev rk) = disk).
  { subst rk. by rewrite rev_involutive, string_of_list_ascii_of_string. }
  destruct rd as [|c rd].
  { exfalso. apply Hne.
    destruct digits as [|c digits]; [done|]. simpl in Erd0.
    symmetry in Erd0. by apply app_eq_nil in Erd0 as [_ ?]. }
  apply Forall_cons in Hrd as [Hc Hrd].
  rewrite <- app_assoc. cbn [app]. rewrite (digit_not_newline c Hc).
  unfold strip_suffix_rev.
  change (c :: (rd ++ "p"%char :: rk)%list)
    with ((c :: rd) ++ "p"%char :: rk)%list.
  rewrite drop_while_digit_app by (by constructor).
  replace (length ("p"%char :: rk) =? length ((c :: rd) ++ "p"%char :: rk))%nat
    with false.
  - cbn. exact Hdisk.
  - symmetry. apply Nat.eqb_neq. rewrite length_app. simpl. lia.
Qed.

(** A name without the suffix [p] and digits is left as it is. *)
Lemma re_sub_p_none pre digits :
  all_digits digits ->
  last_char_not (fun c => is_digit c || is_newline c || Ascii.eqb c "p"%char) pre ->
  (digits = "" -> pre <> "") ->
  re_sub_suffix true (pre ++ digits) = pre ++ digits.
Proof.
  unfold all_digits, last_char_not, re_sub_suffix. intros Hd Hl Hne.
  assert (Hname : string_of_list_ascii
                    (rev (rev (list_ascii_of_string (pre ++ digits))))
                  = pre ++ digits)
    by (by rewrite rev_involutive, string_of_list_ascii_of_string).
  revert Hname. rewrite list_ascii_app, rev_app_distr.
  remember (rev (list_ascii_of_string digits)) as rd eqn:Erd0.
  remember (rev (list_ascii_of_string pre)) as rk eqn:Erk0.
  intros Hname.
  assert (Hrd : Forall (fun c => is_digit c = true) rd)
    by (subst rd; by apply Forall_rev).
  assert (Hdrop : drop_while_digit (rd ++ rk) = rk).
  { apply drop_while_digit_app; [done|]. destruct rk as [|c rk]; [done|].
    apply orb_false_iff in Hl as [Hl _]. by apply orb_false_iff in Hl as [? _]. }
  destruct rd as [|c rd].
  - cbn [app] in *. destruct rk as [|c rk].
    + exfalso. apply Hne.
      * destruct digits as [|c digits]; [done|]. simpl in Erd0.
        symmetry in Erd0. by apply app_eq_nil in Erd0 as [_ ?].
      * destruct pre as [|c pre]; [done|]. simpl in Erk0.
        symmetry in Erk0. by apply app_eq_nil in Erk0 as [_ ?].
    + apply orb_false_iff in Hl as [Hl Hp].
      apply orb_false_iff in Hl as [Hdig Hnl]. unfold is_newline in Hnl.
      rewrite Hnl. unfold strip_suffix_rev. simpl. rewrite Hdig.
      rewrite Nat.eqb_refl. exact Hname.
  - apply Forall_cons in Hrd as [Hc Hrd].
    cbn [app] in *. rewrite (digit_not_newline c Hc).
    unfold strip_suffix_rev.
    change (c :: (rd ++ rk)%list) with ((c :: rd) ++ rk)%list in *.
    rewrite Hdrop.
    replace (length rk =? length ((c :: rd) ++ rk))%nat with false
      by (symmetry; apply Nat.eqb_neq; rewrite length_app; simpl; lia).
    destruct rk as [|k rk]; [exact Hname|].
    apply orb_false_iff in Hl as [_ Hp]. rewrite Hp. exact Hname.
Qed.

(** Property X1. For a device whose base name begins with neither
    [mmcblk] nor [nvme], the disk name is the base name without its
    trailing decimal digits: a base name that is [disk] followed by
    digits, where [disk] does not end in a digit, gives [disk]. ([disk]
    is also taken not to end in a line feed, before which the [$] of the
    pattern matches as well.) *)
Theorem disk_name_strips_partition_number (p : Partition)
    (d disk digits : string) :
  device p = Some d ->
  basename d = disk ++ digits ->
  startswith (basename d) "mmcblk" = false ->
  startswith (basename d) "nvme" = false ->
  all_digits digits ->
  last_char_not (fun c => is_digit c || is_newline c) disk ->
  disk_name_for_partition p = Ok disk.
Proof.
  intros Hd Hb Hm Hn Hdig Hl. unfold disk_name_for_partition.
  rewrite Hd. cbv zeta. rewrite Hm, Hn. cbn [orb].
  by rewrite Hb, re_sub_digits.
Qed.

(** Property X2. For a device whose base name begins with [mmcblk] or
    [nvme], the disk name is the base name without a trailing [p] and
    digits: [disk ++ "p" ++ digits] with at least one digit gives [disk],
    and a base name whose trailing digits do not follow a [p] is returned
    whole, so the digits of [nvme0n1] stay. *)
Theorem disk_name_strips_p_suffix (p : Partition) (d : string) :
  device p = Some d ->
  startswith (basename d) "mmcblk" || startswith (basename d) "nvme" = true ->
  (forall disk digits,
     basename d = disk ++ "p" ++ digits -> all_digits digits -> digits <> "" ->
     disk_name_for_partition p = Ok disk)
  /\ (forall pre digits,
        basename d = pre ++ digits -> all_digits digits ->
        last_char_not
          (fun c => is_digit c || is_newline c || Ascii.eqb c "p"%char) pre ->
        disk_name_for_partition p = Ok (basename d)).
Proof.
  intros Hd Hs. unfold disk_name_for_partition. rewrite Hd. cbv zeta.
  rewrite Hs. split.
  - intros disk digits Hb Hdig Hne. by rewrite Hb, re_sub_p_digits.
  - intros pre digits Hb Hdig Hl. rewrite Hb. f_equal.
    apply re_sub_p_none; [done..|].
    intros ->. intros ->. rewrite Hb in Hs. by vm_compute in Hs.
Qed.

(** ** Sorting by mount point *)

Section SortFacts.
Context {A : Type} (key : A -> string).

Lemma insert_by_key_perm x l : insert_by_key key x l ≡ₚ x :: l.
Proof.
  induction l as [|y l IH]; simpl; [done|].
  destruct (String.leb (key x) (key y)); [done|].
  rewrite IH. apply Permutation_swap.
Qed.

Lemma sort_by_key_perm l : sort_by_key key l ≡ₚ l.
Proof.
  induction l as [|x l IH]; [done|].
  unfold sort_by_key in *. simpl. by rewrite insert_by_key_perm, IH.
Qed.

Lemma insert_by_key_ascending x l :
  ascending key l -> ascending key (insert_by_key key x l).
Proof.
  unfold ascending. induction 1 as [|y l Hl IH Hy]; simpl.
  - repeat constructor.
  - destruct (String.leb (key x) (key y)) eqn:E.
    + constructor; [by constructor|]. constructor.
      * unfold String.le. by rewrite E.
      * eapply Forall_impl; [exact Hy|]. intros z Hz. cbn in *.
        etrans; [|exact Hz]. unfold String.le. by rewrite E.
    + constructor; [done|].
      rewrite insert_by_key_perm. constructor; [|done].
      destruct (total String.le (key y) (key x)) as [H|H]; [done|].
      unfold String.le in H. by rewrite E in H.
Qed.

Lemma sort_by_key_ascending l : ascending key (sort_by_key key l).
Proof.
  induction l as [|x l IH]; [constructor|].
  by apply insert_by_key_ascending.
Qed.

Lemma leb_refl s : String.leb s s = true.
Proof.
  pose proof (reflexivity (R := String.le) s) as H.
  unfold String.le in H. by destruct (String.leb s s).
Qed.

Lemma insert_by_key_filter (k : string) x l :
  filter (fun y => key y = k) (insert_by_key key x l)
  = filter (fun y => key y = k) (x :: l).
Proof.
  induction l as [|y l IH]; simpl; [done|].
  destruct (String.leb (key x) (key y)) eqn:E; [done|].
  rewrite filter_cons, IH, !filter_cons.
  destruct (decide (key y = k)) as [Hy|Hy];
    destruct (decide (key x = k)) as [Hx|Hx]; try done.
  exfalso. rewrite <- Hy in Hx. rewrite Hx, leb_refl in E. done.
Qed.

Lemma sort_by_key_filter (k : string) l :
  filter (fun y => key y = k) (sort_by_key key l)
  = filter (fun y => key y = k) l.
Proof.
  induction l as [|x l IH]; [done|].
  unfold sort_by_key in *. simpl.
  by rewrite insert_by_key_filter, !filter_cons, IH.
Qed.

Lemma ascending_lookup l i j a b :
  ascending key l -> l !! i = Some a -> l !! j = Some b -> (i < j)%nat ->
  String.le (key a) (key b).
Proof.
  unfold ascending. intros Hs. revert i j.
  induction Hs as [|x l Hl IH Hx]; intros i j Hi Hj Hlt; [done|].
  destruct i as [|i], j as [|j]; try lia; simpl in *.
  - injection Hi as <-. rewrite Forall_forall in Hx. apply Hx.
    by eapply list_elem_of_lookup_2.
  - eapply IH; eauto. lia.
Qed.
End SortFacts.

Lemma compare_app_r s r : String.compare s (s ++ r) <> Gt.
Proof.
  induction s as [|c s IH].
  - by destruct r.
  - rewrite append_cons. simpl.
    assert (Ascii.compare c c = Eq) as ->; [|done].
    unfold Ascii.compare. apply N.compare_refl.
Qed.

Lemma leb_app_r s r : String.leb s (s ++ r) = true.
Proof.
  unfold String.leb. pose proof (compare_app_r s r).
  by destruct (String.compare s (s ++ r)).
Qed.

Lemma app_nil_inv (s r : string) : s = s ++ r -> r = "".
Proof.
  induction s as [|c s IH]; [done|].
  rewrite append_cons. intros [=]. auto.
Qed.

(** Property X3. The model of [list.sort(key=...)] is a stable sort: its
    result is a permutation of the list, its keys ascend, and the
    elements of any one key keep the order they had. *)
Theorem sort_by_key_stable_sort {A : Type} (key : A -> string) (l : list A) :
  sort_by_key key l ≡ₚ l
  /\ ascending key (sort_by_key key l)
  /\ forall k, filter (fun y => key y = k) (sort_by_key key l)
               = filter (fun y => key y = k) l.
Proof.
  split; [apply sort_by_key_perm|]. split; [apply sort_by_key_ascending|].
  intros k. apply sort_by_key_filter.
Qed.

(** Property X4. In a list sorted by mount point, an entry whose mount
    point is a proper extension of another entry's mount point comes
    after it: [/] is before [/home], and [/home] before [/home/user]. *)
Theorem parent_mount_point_comes_first (l : list Partition) (i j : nat)
    (a b : Partition) (rest : string) :
  sort_by_key mountPoint_key l !! i = Some a ->
  sort_by_key mountPoint_key l !! j = Some b ->
  mountPoint_key b = mountPoint_key a ++ rest -> rest <> "" ->
  (i < j)%nat.
Proof.
  intros Hi Hj Hkey Hrest.
  destruct (decide (i < j)%nat) as [|Hge]; [done|]. exfalso.
  destruct (decide (i = j)) as [->|Hne].
  - rewrite Hi in Hj. injection Hj as ->. by apply app_nil_inv in Hkey.
  - assert (Hle : String.le (mountPoint_key b) (mountPoint_key a)).
    { eapply (ascending_lookup mountPoint_key); eauto.
      - apply sort_by_key_ascending.
      - lia. }
    assert (Hle' : String.le (mountPoint_key a) (mountPoint_key b)).
    { unfold String.le. by rewrite Hkey, leb_app_r. }
    assert (Heq : mountPoint_key a = mountPoint_key b)
      by (by apply (anti_symm String.le)).
    rewrite Heq in Hkey. by apply app_nil_inv in Hkey.
Qed.

(** ** The EFI partition *)

(** Property X5. When an EFI location is handed over and the partition
    is mounted there, the resolver answers as it does for the filesystem
    kind [efi], whatever kind the partition has. *)
Theorem efi_partition_uses_efi_rule (env : Env) (fsk : string)
    (rules : option (list MountOptionRule)) (p : Partition)
    (efi_location : option string) :
  truthy efi_location = true ->
  mountPoint p = efi_location ->
  get_mount_options env fsk rules p efi_location
  = get_mount_options env "efi" rules p None.
Proof.
  intros Ht Hmp. unfold get_mount_options.
  destruct (options p); [done|]. destruct rules as [rules|]; [|done].
  rewrite Ht, Hmp. destruct efi_location as [e|]; [|done].
  cbn [default truthy]. by rewrite String.eqb_refl.
Qed.

(** ** Swap devices *)

Section ResultLists.
Context {A B : Type}.

Lemma filter_result_ok (cond : A -> result bool) l l' :
  filter_result cond l = Ok l' ->
  forall x, x ∈ l' -> x ∈ l /\ cond x = Ok true.
Proof.
  revert l'. induction l as [|y l IH]; intros l' H x Hx; simpl in H.
  - injection H as <-. by apply not_elem_of_nil in Hx.
  - destruct (cond y) as [b|e] eqn:Ey; [|done].
    destruct (filter_result cond l) as [r|e]; [|done].
    injection H as <-. destruct b.
    + apply elem_of_cons in Hx as [->|Hx].
      * split; [by left|done].
      * destruct (IH r eq_refl x Hx). split; [by right|done].
    + destruct (IH r eq_refl x Hx). split; [by right|done].
Qed.

Lemma map_result_ok (f : A -> result B) l l' :
  map_result f l = Ok l' ->
  forall y, y ∈ l' -> exists x, x ∈ l /\ f x = Ok y.
Proof.
  revert l'. induction l as [|x l IH]; intros l' H y Hy; simpl in H.
  - injection H as <-. by apply not_elem_of_nil in Hy.
  - destruct (f x) as [z|e] eqn:Ex; [|done].
    destruct (map_result f l) as [r|e]; [|done].
    injection H as <-. apply elem_of_cons in Hy as [->|Hy].
    + exists x. split; [by left|done].
    + destruct (IH r eq_refl y Hy) as (x' & ? & ?). exists x'.
      split; [by right|done].
Qed.

Lemma filter_result_raise (cond : A -> result bool) l e :
  (forall x e', x ∈ l -> cond x = Raise e' -> e' = e) ->
  (exists x, x ∈ l /\ cond x = Raise e) ->
  filter_result cond l = Raise e.
Proof.
  induction l as [|y l IH]; intros Hall (x & Hx & Ex).
  - by apply not_elem_of_nil in Hx.
  - simpl. destruct (cond y) as [b|e'] eqn:Ey.
    + rewrite IH; [done| |].
      * intros z e' Hz. apply Hall. by right.
      * apply elem_of_cons in Hx as [->|Hx]; [congruence|eauto].
    + f_equal. eapply Hall; [by left|done].
Qed.
End ResultLists.

(** Property X6. Every device that [run] hands to [swapon] comes from a
    partition of kind [linuxswap] that is claimed: the device of the
    partition itself when it is plain swap, the mapper device of its LUKS
    name when it is swap on LUKS or LUKS2. *)
Theorem swap_devices_claimed_only (partitions : list Partition)
    (devices : list string) :
  swap_devices partitions = Ok devices ->
  forall d, d ∈ devices -> exists p, p ∈ partitions /\ enabled_swap p d.
Proof.
  unfold swap_devices. intros H d Hd.
  destruct (filter_result is_claimed_swap partitions) as [cl|] eqn:Ecl; [|done].
  destruct (filter_result is_plain_swap cl) as [plain|] eqn:Epl; [|done].
  destruct (filter_result is_luks_swap cl) as [luks|] eqn:Elu; [|done].
  destruct (map_result _ plain) as [pd|] eqn:Epd; [|done].
  destruct (map_result _ luks) as [ld|] eqn:Eld; [|done].
  injection H as <-.
  assert (Hcl : forall p, p ∈ cl ->
            p ∈ partitions /\ fs p = Some "linuxswap" /\ claimed p = Some true).
  { intros p Hp. destruct (filter_result_ok _ _ _ Ecl p Hp) as [Hin Hc].
    split; [done|]. unfold is_claimed_swap, item in Hc.
    destruct (fs p) as [f|]; [|done]. injection Hc as Hc.
    apply andb_true_iff in Hc as [Hf Hc]. apply String.eqb_eq in Hf as ->.
    split; [done|]. by destruct (claimed p) as [[]|]. }
  apply elem_of_app in Hd as [Hd|Hd].
  - destruct (map_result_ok _ _ _ Epd d Hd) as (p & Hp & Hdev).
    destruct (filter_result_ok _ _ _ Epl p Hp) as [Hin Hc].
    destruct (Hcl p Hin) as (? & ? & ?). exists p. split; [done|].
    split; [done|]. split; [done|]. left.
    unfold is_plain_swap, item in Hc. destruct (fsName p) as [n|]; [|done].
    injection Hc as Hc. apply String.eqb_eq in Hc as ->.
    unfold item in Hdev. destruct (device p); [|done]. by injection Hdev as ->.
  - destruct (map_result_ok _ _ _ Eld d Hd) as (p & Hp & Hdev).
    destruct (filter_result_ok _ _ _ Elu p Hp) as [Hin Hc].
    destruct (Hcl p Hin) as (? & ? & ?). exists p. split; [done|].
    split; [done|]. split; [done|]. right.
    unfold is_luks_swap, item in Hc. destruct (fsName p) as [n|]; [|done].
    injection Hc as Hc. apply orb_true_iff in Hc.
    split.
    + destruct Hc as [Hc|Hc]; apply String.eqb_eq in Hc as ->; auto.
    + unfold item in Hdev. destruct (luksMapperName p) as [m|]; [|done].
      injection Hdev as <-. eauto.
Qed.

Lemma swap_devices_missing_fs (partitions : list Partition) :
  (exists p, p ∈ partitions /\ fs p = None) ->
  swap_devices partitions = Raise (KeyError "fs").
Proof.
  intros (p & Hp & Hfs). unfold swap_devices.
  rewrite (filter_result_raise is_claimed_swap partitions (KeyError "fs")); [done| |].
  - intros x e _. unfold is_claimed_swap, item. destruct (fs x); [done|].
    by intros [= <-].
  - exists p. split; [done|]. unfold is_claimed_swap, item. by rewrite Hfs.
Qed.

(** ** Enabling swap *)

Section Swap.
Context (env : Env).

Lemma swapon_loop devices st :
  exists tried evs,
    snd (for_each devices (fun d => check_call env ["swapon"; d]) st)
    = after st evs
    /\ tried `prefix_of` devices
    /\ Forall2 is_swapon tried evs
    /\ match fst (for_each devices (fun d => check_call env ["swapon"; d]) st) with
       | Ok _ => tried = devices /\ Forall (fun ev => ~ event_failed ev) evs
       | Raise e =>
           (exists argv rc, e = CalledProcessError argv rc)
           /\ exists ev, last evs = Some ev /\ event_failed ev
       end.
Proof.
  revert st. induction devices as [|d devices IH]; intros st.
  - exists [], []. cbn. rewrite after_nil.
    split; [done|]. split; [done|]. split; [constructor|].
    split; [done|constructor].
  - cbn [for_each]. unfold bind. rewrite check_call_eq.
    set (rc := cmd_rc env (trace st) ["swapon"; d]).
    destruct (rc =? 0) eqn:Hrc.
    + destruct (IH (after st [EvCmd ["swapon"; d] rc]))
        as (tried & evs & Hst & Hpre & Hsw & Hres).
      exists (d :: tried), (EvCmd ["swapon"; d] rc :: evs).
      rewrite Hst, after_after. split; [done|].
      split; [by apply prefix_cons|].
      split; [constructor; [by exists rc|done]|].
      destruct (for_each devices _ _) as [[[]|e] st']; cbn [fst] in *.
      * destruct Hres as [-> Hev]. split; [done|].
        constructor; [|done]. cbn. apply Z.eqb_eq in Hrc. lia.
      * destruct Hres as [He (ev & Hlast & Hf)]. split; [done|].
        exists ev. split; [|done]. rewrite last_cons, Hlast. done.
    + exists [d], [EvCmd ["swapon"; d] rc]. cbn [fst snd].
      split; [done|]. split; [apply prefix_cons, prefix_nil|].
      split; [repeat constructor; by exists rc|].
      split; [eauto|]. exists (EvCmd ["swapon"; d] rc). split; [done|].
      cbn. by apply Z.eqb_neq in Hrc.
Qed.
End Swap.

Lemma enable_swap_partition_outcome (env : Env)
    (devices : list string) (st : State) :
  exists tried evs,
    enable_swap_partition env devices st = (Ok tt, after st evs)
    /\ tried `prefix_of` devices
    /\ Forall2 is_swapon tried evs
    /\ (tried = devices
        \/ exists ev, last evs = Some ev /\ event_failed ev).
Proof.
  destruct (swapon_loop env devices st)
    as (tried & evs & Hst & Hpre & Hsw & Hres).
  exists tried, evs. unfold enable_swap_partition, try_except.
  destruct (for_each devices _ st) as [[[]|e] st']; cbn [fst snd] in *.
  - subst st'. split; [done|]. split; [done|]. split; [done|].
    left. by destruct Hres.
  - destruct Hres as [(argv & rc & ->) Hlast]. subst st'.
    split; [done|]. split; [done|]. split; [done|]. by right.
Qed.


(** ** The whole run *)

Lemma bind_cases {A B} (c : M A) (k : A -> M B) st
    (P : result B * State -> Prop) :
  (forall a st1, c st = (Ok a, st1) -> P (k a st1)) ->
  (forall e st1, c st = (Raise e, st1) -> P (Raise e, st1)) ->
  P (bind c k st).
Proof.
  intros Hok Hraise. unfold bind. destruct (c st) as [[a|e] st1]; auto.
Qed.

Lemma try_except_cases {A} (c : M A) (h : exn -> M A) st
    (P : result A * State -> Prop) :
  (forall a st1, c st = (Ok a, st1) -> P (Ok a, st1)) ->
  (forall e st1, c st = (Raise e, st1) -> P (h e st1)) ->
  P (try_except c h st).
Proof.
  intros Hok Hraise. unfold try_except.
  destruct (c st) as [[a|e] st1]; auto.
Qed.

Lemma run_extra_mounts (inp : Inputs) :
  (if match gs_firmwareType inp with
      | Some t => (t =? "efi")%string
      | None => false
      end
   then default [] (cfg_extraMounts inp)
   else filter (fun m : Partition => negb (default false (efi m)))
               (default [] (cfg_extraMounts inp)))
  = effective_extra_mounts inp.
Proof.
  unfold effective_extra_mounts. cbv zeta.
  assert (Hf : filter (fun m : Partition => negb (default false (efi m)))
                      (default [] (cfg_extraMounts inp))
               = filter (fun m => efi m <> Some true)
                        (default [] (cfg_extraMounts inp))).
  { apply list_filter_iff. intros m. destruct (efi m) as [[]|]; cbn; naive_solver. }
  destruct (gs_firmwareType inp) as [t|].
  - destruct (String.eqb_spec t "efi") as [->|Hne].
    + by rewrite bool_decide_eq_true_2.
    + rewrite bool_decide_eq_false_2 by congruence. exact Hf.
  - rewrite bool_decide_eq_false_2 by done. exact Hf.
Qed.

(** Property X8. [run] returns the configuration error exactly when the
    partition list is missing or empty, and then it has done nothing. *)
Theorem run_configuration_error (env : Env) (inp : Inputs) (st : State) :
  (gs_partitions inp = None \/ gs_partitions inp = Some [] ->
   run env inp st = (Ok (Some configuration_error), st))
  /\ (forall t, fst (run env inp st) = Ok (Some t) ->
      gs_partitions inp = None \/ gs_partitions inp = Some []).
Proof.
  split.
  - unfold run. by intros [-> | ->].
  - intros t. unfold run.
    destruct (gs_partitions inp) as [[|p0 ps]|]; [auto| |auto].
    intros H. exfalso. revert H.
    repeat (apply bind_cases; [intros ? ? _|by intros]).
    done.
Qed.



(** Property X10. A partition without the key [fs] makes [run] fail with
    [KeyError] on that key before it has done anything, whether or not
    the partition has a mount point. *)
Theorem run_missing_fs_key (env : Env) (inp : Inputs) (st : State)
    (partitions : list Partition) :
  gs_partitions inp = Some partitions ->
  (exists p, p ∈ partitions /\ fs p = None) ->
  run env inp st = (Raise (KeyError "fs"), st).
Proof.
  intros Hps Hex. unfold run. rewrite Hps.
  destruct partitions as [|p0 ps].
  { destruct Hex as (p & Hp & _). by apply not_elem_of_nil in Hp. }
  by rewrite (swap_devices_missing_fs _ Hex).
Qed.

Lemma try_except_ok {A} (c : M A) (h : exn -> M A) st a st1 :
  c st = (Ok a, st1) -> try_except c h st = (Ok a, st1).
Proof. intros H. unfold try_except. by rewrite H. Qed.

(** What a run that succeeds has gone through: the two loops returned
    normally, from a state with an empty ledger and an empty options
    list, and the three inserts followed. *)
Lemma run_ok_inv (env : Env) (inp : Inputs) (st : State)
    (partitions : list Partition) :
  gs_partitions inp = Some partitions ->
  fst (run env inp st) = Ok None ->
  exists st0 root st1,
    active_mounts st0 = [] /\ mount_options_list st0 = []
    /\ (exists tr, root = temp_dir env tr "calamares-root-")
    /\ (for_each (sort_by_key mountPoint_key (with_mount_point partitions))
          (fun p => mount_partition env inp root p partitions
                      (cfg_mountOptions inp) (run_efi_location inp)) ;;;
        for_each (sort_by_key mountPoint_key
                    (with_mount_point (effective_extra_mounts inp)))
          (fun p => mount_partition env inp root p partitions
                      (cfg_mountOptions inp) (run_efi_location inp))) st0
       = (Ok tt, st1)
    /\ snd (run env inp st)
       = {| trace := trace st1;
            active_mounts := active_mounts st1;
            mount_options_list := mount_options_list st1;
            globalstorage :=
              <["extraMounts" := GSPartitions (effective_extra_mounts inp)]>
                (<["mountOptionsList" := GSOptionsList (mount_options_list st1)]>
                   (<["rootMountPoint" := GSString root]> (globalstorage st1))) |}.
Proof.
  intros Hps. unfold run. rewrite Hps.
  destruct partitions as [|p0 ps]; [done|].
  rewrite run_extra_mounts.
  replace (if match gs_firmwareType inp with
              | Some t => (t =? "efi")%string
              | None => false
              end
           then gs_efiSystemPartition inp else None)
    with (run_efi_location inp).
  2:{ unfold run_efi_location. destruct (gs_firmwareType inp) as [t|].
      - destruct (String.eqb_spec t "efi") as [->|Hne].
        + by rewrite bool_decide_eq_true_2.
        + by rewrite bool_decide_eq_false_2 by congruence.
      - by rewrite bool_decide_eq_false_2. }
  destruct (swap_devices (p0 :: ps)) as [devices|e0]; [|done].
  erewrite bind_ok by reflexivity.
  destruct (enable_swap_partition_outcome env devices st)
    as (tried & evs & E & _).
  erewrite bind_ok by exact E.
  erewrite bind_ok by apply mkdtemp_eq.
  erewrite bind_ok by reflexivity. erewrite bind_ok by reflexivity.
  match goal with
  | |- context [bind (try_except ?body ?h) _ ?s] =>
      destruct (body s) as [[[]|e] st1] eqn:Hbody
  end.
  - erewrite bind_ok by (apply try_except_ok; exact Hbody).
    intros _.
    match type of Hbody with _ ?s = _ => exists s end.
    exists (temp_dir env (trace (after st evs)) "calamares-root-"), st1.
    split; [reflexivity|]. split; [reflexivity|].
    split; [eexists; reflexivity|]. split; [exact Hbody|reflexivity].
  - match goal with
    | |- context [bind (try_except ?body ?h) _ ?s] =>
        assert (Hr : exists m st2, try_except body h s = (Raise (Exception m), st2))
    end.
    { unfold try_except. rewrite Hbody.
      destruct (@err_outcome env unit (str_exn env e) st1) as (evs' & E' & _).
      rewrite E'. eauto. }
    destruct Hr as (m & st2 & Hr). by erewrite bind_raise by exact Hr.
Qed.

(** Property X11. A run that succeeds publishes as [extraMounts] the
    configured extra mounts; unless the firmware type is [efi], those
    marked [efi] are left out of what is mounted and published. *)
Theorem run_success_publishes (env : Env) (inp : Inputs) (st : State) :
  fst (run env inp st) = Ok None ->
  globalstorage (snd (run env inp st)) !! "extraMounts"
  = Some (GSPartitions (effective_extra_mounts inp))
  /\ (gs_firmwareType inp <> Some "efi" ->
      Forall (fun m => efi m <> Some true) (effective_extra_mounts inp))
  /\ (gs_firmwareType inp = Some "efi" ->
      effective_extra_mounts inp = default [] (cfg_extraMounts inp)).
Proof.
  intros Hok. split; [|split].
  - destruct (gs_partitions inp) as [ps|] eqn:Hps.
    + destruct (run_ok_inv env inp st ps Hps Hok)
        as (st0 & root & st1 & _ & _ & _ & _ & ->).
      cbn [globalstorage]. apply lookup_insert_eq.
    + revert Hok. unfold run. by rewrite Hps.
  - intros Hne. unfold effective_extra_mounts.
    rewrite bool_decide_eq_false_2 by done. cbv zeta.
    apply Forall_forall. intros m Hm. by apply list_elem_of_filter in Hm as [? _].
  - intros He. unfold effective_extra_mounts. by rewrite bool_decide_eq_true_2.
Qed.

Lemma with_mount_point_sorted_truthy (l : list Partition) :
  Forall (fun p => truthy (mountPoint p) = true)
         (sort_by_key mountPoint_key (with_mount_point l)).
Proof.
  rewrite (sort_by_key_perm mountPoint_key). apply Forall_forall.
  intros p Hp. unfold with_mount_point in Hp.
  apply list_elem_of_filter in Hp as [Hp _]. by apply Is_true_true.
Qed.

(** Property X12. After a run that succeeds the ledger of active mounts
    holds, below the published root, the target path of every partition
    with a mount point in ascending order of mount points, followed by
    those of the extra mounts in ascending order. The scratch directory
    of the Btrfs protocol is taken not to lie under the root. *)
Theorem run_success_ledger (env : Env) (inp : Inputs) (st : State)
    (partitions : list Partition) :
  gs_partitions inp = Some partitions ->
  (forall tr tr' suffix,
     temp_dir env tr "calam-btrfs-"
     <> temp_dir env tr' "calamares-root-" ++ suffix) ->
  fst (run env inp st) = Ok None ->
  exists root,
    globalstorage (snd (run env inp st)) !! "rootMountPoint"
    = Some (GSString root)
    /\ active_mounts (snd (run env inp st))
       = map (target_path root)
           (sort_by_key mountPoint_key (with_mount_point partitions)
            ++ sort_by_key mountPoint_key
                 (with_mount_point (effective_extra_mounts inp))).
Proof.
  intros Hps Hfresh Hok.
  destruct (run_ok_inv env inp st partitions Hps Hok)
    as (st0 & root & st1 & Ham & _ & [tr0 Hroot] & Hbody & ->).
  exists root. cbn [globalstorage active_mounts]. split.
  { rewrite !(lookup_insert_ne _ _ "rootMountPoint") by done.
    apply lookup_insert_eq. }
  assert (Hsf : forall am l,
            scratch_fresh env am ->
            scratch_fresh env (am ++ map (target_path root) l)).
  { intros am l Ha tr Hin. apply elem_of_app in Hin as [Hin|Hin].
    - by apply (Ha tr).
    - apply list_elem_of_fmap in Hin as (p & Hp & _).
      unfold target_path in Hp. subst root. by apply Hfresh in Hp. }
  revert Hbody. unfold bind.
  set (phys := sort_by_key mountPoint_key (with_mount_point partitions)).
  set (extra := sort_by_key mountPoint_key
                  (with_mount_point (effective_extra_mounts inp))).
  destruct (mount_loop_ledger env inp root partitions (cfg_mountOptions inp)
              (run_efi_location inp) phys
              (with_mount_point_sorted_truthy partitions) st0) as [H1 _].
  { apply Hsf. rewrite Ham. intros tr Hin. by apply not_elem_of_nil in Hin. }
  cbv zeta in H1.
  destruct (for_each phys _ st0) as [[[]|e] stA]; [|done].
  cbn [fst snd] in H1. specialize (H1 I).
  destruct (mount_loop_ledger env inp root partitions (cfg_mountOptions inp)
              (run_efi_location inp) extra
              (with_mount_point_sorted_truthy (effective_extra_mounts inp))
              stA) as [H2 _].
  { rewrite H1, Ham. cbn [app]. apply Hsf. apply (Hsf [] phys).
    intros tr Hin. by apply not_elem_of_nil in Hin. }
  cbv zeta in H2. intros Hbody. rewrite Hbody in H2. cbn [fst snd] in H2.
  rewrite (H2 I), H1, Ham. cbn [app]. by rewrite map_app.
Qed.

(** ** Partitions that are passed over, and the direct mount *)

Section Direct.
Context (env : Env) (inp : Inputs).

Lemma mount_partition_prepare root p ps rules efi st raw :
  mountPoint p = Some raw -> raw <> "" ->
  makedirs_ok env (trace st) (root ++ raw) = true ->
  mount_partition env inp root p ps rules efi st
  = (let fstype := lower (default "" (fs p)) in
     if (fstype =? "unformatted")%string then ret tt
     else
       let* dev := getitem "device" (device p) in
       let* fstype :=
         if str_in fstype legacy_filesystems then
           (if blocked fstype raw efi
            then err env ("Unsupported partition with " ++ fstype
                          ++ " on " ++ raw)
            else ret tt) ;;;
           ret (if negb (fstype =? "exfat")%string then "vfat" else "exfat")
         else ret fstype in
       let dev :=
         match luksMapperName p with
         | Some name => path_join "/dev/mapper" [name]
         | None => dev
         end in
       if (fstype =? "zfs")%string then mount_zfs env inp root p
       else
         let* mount_options_string :=
           lift (get_mount_options env fstype rules p efi) in
         mol_append {| mountpoint := raw;
                       option_string := mount_options_string |} ;;;
         if negb ((fstype =? "btrfs")%string && (raw =? "/")%string)
         then
           let* rc := mount env dev (root ++ raw) fstype mount_options_string in
           if negb (rc =? 0) then err env ("Cannot mount " ++ dev) else ret tt
         else
           mount_btrfs_root env inp root dev fstype mount_options_string ps)
      (prepared env st root raw).
Proof.
  intros Hmp Hraw Hmk. unfold mount_partition. rewrite Hmp.
  erewrite bind_ok by reflexivity.
  apply String.eqb_neq in Hraw. rewrite Hraw.
  erewrite bind_ok by apply am_append_eq.
  erewrite bind_ok
    by (rewrite makedirs_eq; cbn [trace]; rewrite Hmk; reflexivity).
  erewrite bind_ok by apply call_eq.
  unfold prepared, with_ledger_entry, after. cbn [trace active_mounts
    mount_options_list globalstorage]. by rewrite <- app_assoc.
Qed.
End Direct.

(** Property X13. What [mount_partition] passes over: without the key
    [mountPoint] it fails with [KeyError] and does nothing; with an empty
    mount point it returns at once; an unformatted partition gets its
    target on the ledger, its directory and the [chcon] call, and is then
    left unmounted, with no entry in the options list. *)
Theorem mount_partition_passes_over (env : Env) (inp : Inputs)
    (root : string) (p : Partition) (ps : list Partition)
    (rules : option (list MountOptionRule)) (efi_location : option string)
    (st : State) :
  (mountPoint p = None ->
   mount_partition env inp root p ps rules efi_location st
   = (Raise (KeyError "mountPoint"), st))
  /\ (mountPoint p = Some "" ->
      mount_partition env inp root p ps rules efi_location st = (Ok tt, st))
  /\ (forall raw,
        mountPoint p = Some raw -> raw <> "" ->
        lower (default "" (fs p)) = "unformatted" ->
        makedirs_ok env (trace st) (root ++ raw) = true ->
        mount_partition env inp root p ps rules efi_location st
        = (Ok tt, prepared env st root raw)).
Proof.
  split; [|split].
  - intros H. unfold mount_partition. by rewrite H.
  - intros H. unfold mount_partition. by rewrite H.
  - intros raw Hmp Hraw Hfs Hmk.
    rewrite (mount_partition_prepare env inp root p ps rules efi_location
               st raw Hmp Hraw Hmk).
    cbv zeta. by rewrite Hfs.
Qed.

Lemma mapper_path name :
  startswith name "/" = false ->
  path_join "/dev/mapper" [name] = "/dev/mapper/" ++ name.
Proof.
  intros H. unfold path_join. cbn [fold_left]. unfold path_join2.
  by rewrite H.
Qed.

(** Property X14. The direct mount of [mount_partition], for a
    partition that is not unformatted, not rejected as a legacy
    filesystem, not ZFS and not the Btrfs root: the entry with the
    resolved options is appended, then the mount executor is called once,
    with the mapper device when the partition has a LUKS name, and with
    [vfat] in place of fat16 and fat32; the call returns normally exactly
    when the executor returns 0, and otherwise the ledger is unwound and
    the failure names the device. *)
Theorem direct_mount (env : Env) (inp : Inputs)
    (root : string) (p : Partition) (ps : list Partition)
    (rules : option (list MountOptionRule)) (efi_location : option string)
    (st : State) (raw dev opts : string) :
  let fstype := lower (default "" (fs p)) in
  let target := root ++ raw in
  mountPoint p = Some raw -> raw <> "" ->
  device p = Some dev ->
  (forall name, luksMapperName p = Some name -> startswith name "/" = false) ->
  fstype <> "unformatted" ->
  (str_in fstype legacy_filesystems = true ->
   blocked fstype raw efi_location = false) ->
  mount_fstype fstype <> "zfs" ->
  (mount_fstype fstype = "btrfs" -> raw <> "/") ->
  makedirs_ok env (trace st) target = true ->
  get_mount_options env (mount_fstype fstype) rules p efi_location = Ok opts ->
  let st1 :=
    with_options_entry (prepared env st root raw)
                       {| mountpoint := raw; option_string := opts |} in
  let rc := mount_rc env (trace st1) (mount_device p dev) target
                     (mount_fstype fstype) opts in
  let st2 := after st1 [EvMount (mount_device p dev) target
                                (mount_fstype fstype) opts rc] in
  if rc =? 0
  then mount_partition env inp root p ps rules efi_location st = (Ok tt, st2)
  else
    exists evs,
      mount_partition env inp root p ps rules efi_location st
      = (Raise (Exception ("Cannot mount " ++ mount_device p dev)),
         after st2 evs)
      /\ unwinds env (trace st2) (sorted_reverse (active_mounts st2)) evs.
Proof.
  intros fstype target Hmp Hraw Hdev Hluks Hunf Hleg Hzfs Hbtrfs Hmk Hopts.
  cbv zeta.
  rewrite (mount_partition_prepare env inp root p ps rules efi_location
             st raw Hmp Hraw Hmk).
  cbv zeta. fold fstype.
  apply String.eqb_neq in Hunf. rewrite Hunf, Hdev.
  erewrite bind_ok by reflexivity.
  assert (Hdevice : match luksMapperName p with
                    | Some name => path_join "/dev/mapper" [name]
                    | None => dev
                    end = mount_device p dev).
  { unfold mount_device. destruct (luksMapperName p) as [n|]; [|done].
    by apply mapper_path, Hluks. }
  rewrite Hdevice.
  assert (Hkind :
    (let* fstype0 :=
       if str_in fstype legacy_filesystems then
         (if blocked fstype raw efi_location
          then err env ("Unsupported partition with " ++ fstype
                        ++ " on " ++ raw)
          else ret tt) ;;;
         ret (if negb (fstype =? "exfat")%string then "vfat" else "exfat")
       else ret fstype in
     ret fstype0) (prepared env st root raw)
    = (Ok (mount_fstype fstype), prepared env st root raw)).
  { unfold mount_fstype. destruct (str_in fstype legacy_filesystems) eqn:E.
    - rewrite (Hleg eq_refl). by destruct (fstype =? "exfat")%string.
    - done. }
  match goal with
  | |- context [bind ?c ?k (prepared env st root raw)] =>
      assert (Hc : c (prepared env st root raw)
                   = (Ok (mount_fstype fstype), prepared env st root raw))
  end.
  { revert Hkind. unfold bind at 1.
    match goal with |- context [(if ?b then ?x else ?y) ?s] =>
      destruct ((if b then x else y) s) as [[a|e] s'] end; [|done].
    unfold ret. by intros [= -> ->]. }
  rewrite (bind_ok _ _ _ _ _ Hc).
  apply String.eqb_neq in Hzfs. rewrite Hzfs, Hopts.
  erewrite bind_ok by reflexivity. erewrite bind_ok by reflexivity.
  assert (Hnb : (mount_fstype fstype =? "btrfs")%string && (raw =? "/")%string
                = false).
  { apply andb_false_iff.
    destruct (String.eqb_spec (mount_fstype fstype) "btrfs") as [E|]; [|auto].
    right. by apply String.eqb_neq, Hbtrfs. }
  rewrite Hnb. cbn [negb].
  erewrite bind_ok by apply mount_eq.
  fold (with_options_entry (prepared env st root raw)
          {| mountpoint := raw; option_string := opts |}).
  destruct (_ =? 0); cbn [negb]; [done|].
  match goal with |- context [err env ?m ?s] =>
    destruct (@err_outcome env unit m s) as (evs & E & U)
  end.
  exists evs. by rewrite E.
Qed.

(** ** The ZFS protocol *)

Section ZfsProtocol.
Context (env : Env) (inp : Inputs).

Lemma zfs_command_eq argv msg st :
  zfs_command env argv msg st =
  (if cmd_rc env (trace st) argv =? 0 then Ok tt
   else Raise (ZfsException msg),
   after st [EvCmd argv (cmd_rc env (trace st) argv)]).
Proof.
  unfold zfs_command, try_except. rewrite check_call_eq.
  by destruct (_ =? 0).
Qed.

Lemma find_zfs_pool_last before z later mp :
  zp_mountpoint z = mp ->
  Forall (fun z' => zp_mountpoint z' <> mp) later ->
  find_zfs_pool (before ++ z :: later)%list mp
  = Some (poolName z, dsName z).
Proof.
  intros Hz Hl. unfold find_zfs_pool. rewrite fold_left_app. cbn [fold_left].
  apply String.eqb_eq in Hz. rewrite Hz.
  generalize (Some (poolName z, dsName z)).
  induction Hl as [|z' later Hz' _ IH]; intros acc; [done|].
  cbn [fold_left]. apply String.eqb_neq in Hz'. by rewrite Hz'.
Qed.

Lemma zfs_dataset_loop (datasets : list ZfsDataset) st :
  (forall tr argv, cmd_rc env tr argv = 0) ->
  for_each datasets (fun dataset =>
    if can_mount dataset then
      zfs_command env ["zfs"; "mount"; zpool dataset ++ "/" ++ zd_dsName dataset]
                  "Failed to set zfs mountpoint"
    else ret tt) st
  = (Ok tt,
     after st (map (fun d => zfs_mount (zpool d) (zd_dsName d))
                   (filter (fun d => can_mount d = true) datasets))).
Proof.
  intros Hcmd. revert st. induction datasets as [|d l IH]; intros st.
  - cbn. by rewrite after_nil.
  - cbn [for_each]. rewrite filter_cons.
    destruct (can_mount d) eqn:Hd.
    + erewrite bind_ok by (rewrite zfs_command_eq, Hcmd; reflexivity).
      rewrite IH, after_after. rewrite decide_True by done. done.
    + erewrite bind_ok by reflexivity. rewrite IH.
      by rewrite decide_False by done.
Qed.
End ZfsProtocol.

Section RaisesOnly.
Context (E : exn -> Prop).

Lemma raises_only_ret {A} (a : A) : raises_only E (ret a).
Proof. by intros st e. Qed.

Lemma raises_only_raise {A} e : E e -> raises_only E (@raise A e).
Proof. intros He st e' [= <-]. done. Qed.

Lemma raises_only_bind {A B} (c : M A) (k : A -> M B) :
  raises_only E c -> (forall a, raises_only E (k a)) ->
  raises_only E (bind c k).
Proof.
  intros Hc Hk st e. unfold bind. specialize (Hc st).
  destruct (c st) as [[a|e'] st1]; cbn [fst] in *.
  - apply Hk.
  - intros [= <-]. by apply Hc.
Qed.

Lemma raises_only_for_each {A} (l : list A) (body : A -> M unit) :
  (forall x, raises_only E (body x)) -> raises_only E (for_each l body).
Proof.
  intros Hb. induction l as [|x l IH]; cbn [for_each].
  - apply raises_only_ret.
  - apply raises_only_bind; auto.
Qed.
End RaisesOnly.

Lemma zfs_command_raises_only (E : exn -> Prop) env argv msg :
  E (ZfsException msg) -> raises_only E (zfs_command env argv msg).
Proof.
  intros He st e. rewrite zfs_command_eq. destruct (_ =? 0); [done|].
  by intros [= <-].
Qed.

(** Property X15. [mount_zfs] turns every failing command into one of
    its four [ZfsException]s; the only other failures are the lookup of
    the mount point and the unbound pool name. *)
Theorem mount_zfs_failures (env : Env) (inp : Inputs) (root : string)
    (p : Partition) (st : State) (e : exn) :
  fst (mount_zfs env inp root p st) = Raise e ->
  zfs_failure e
  \/ e = UnboundLocalError "pool_name"
  \/ e = KeyError "mountPoint".
Proof.
  revert st e.
  change (raises_only (fun e => zfs_failure e
                                \/ e = UnboundLocalError "pool_name"
                                \/ e = KeyError "mountPoint")
                      (mount_zfs env inp root p)).
  unfold mount_zfs, local, lift, zfs_failure.
  repeat first
    [ match goal with
      | |- context [find_zfs_pool ?a ?b] =>
          destruct (find_zfs_pool a b) as [[??]|];
          cbn [fmap option_fmap option_map fst snd]
      end
    | apply raises_only_ret
    | apply raises_only_raise; solve [auto 10]
    | apply zfs_command_raises_only; solve [auto 10]
    | apply raises_only_bind; [|intros ?]
    | apply raises_only_for_each; intros ?
    | match goal with
      | |- raises_only _ (if ?b then _ else _) => destruct b
      | |- raises_only _ (match ?x with _ => _ end) => destruct x
      | |- raises_only _ (fun st => (match ?x with _ => _ end, st)) =>
          destruct x
      | |- raises_only _ (fun st => (Ok _, st)) => by intros ??
      | |- raises_only _ (fun st => (Raise ?e, st)) =>
          intros ?? [= <-]; solve [auto 10]
      end ].
Qed.

(** Property X16. The commands of [mount_zfs] when none fails, for the
    pool that the last matching entry of the pool list names: the pool is
    imported below the root, its key is loaded when the mount point is
    marked encrypted, and then, for a mount point other than [/], the
    dataset of the entry is mounted, while for [/] every dataset whose
    [canMount] is ["noauto"] or true is, in ascending order of dataset
    mount points. *)
Theorem mount_zfs_commands (env : Env) (inp : Inputs) (root : string)
    (p : Partition) (st : State) (before later : list ZfsPoolInfo)
    (z : ZfsPoolInfo) (mp : string) :
  (forall tr argv, cmd_rc env tr argv = 0) ->
  gs_zfsPoolInfo inp = Some (before ++ z :: later)%list ->
  mountPoint p = Some mp ->
  zp_mountpoint z = mp ->
  Forall (fun z' => zp_mountpoint z' <> mp) later ->
  let first_steps :=
    zpool_import root (poolName z) :: zfs_unlock inp mp (poolName z) in
  (mp <> "/" ->
   mount_zfs env inp root p st
   = (Ok tt, after st (first_steps ++ [zfs_mount (poolName z) (dsName z)])))
  /\ (forall datasets,
        mp = "/" -> gs_zfsDatasets inp = Some datasets -> datasets <> [] ->
        mount_zfs env inp root p st
        = (Ok tt,
           after st
             (first_steps
              ++ map (fun d => zfs_mount (zpool d) (zd_dsName d))
                     (filter (fun d => can_mount d = true)
                             (sort_by_key zd_mountpoint datasets))))).
Proof.
  intros Hcmd Hinfo Hmp Hz Hlater first_steps.
  assert (Hstart : forall (k : M unit) evs,
    k (after st first_steps) = (Ok tt, after (after st first_steps) evs) ->
    (zfs_command env ["zpool"; "import"; "-N"; "-R"; root; poolName z]
                 "Failed to import zpool" ;;;
     match find_zfs_passphrase (default [] (gs_zfsInfo inp)) mp with
     | Some _ => zfs_command env ["zfs"; "load-key"; poolName z]
                             "Failed to unlock zpool"
     | None => ret tt
     end ;;; k) st = (Ok tt, after st (first_steps ++ evs))).
  { intros k evs Hk. subst first_steps.
    unfold zfs_unlock, zpool_import, zfs_load_key in *.
    erewrite bind_ok by (rewrite zfs_command_eq, Hcmd; reflexivity).
    destruct (find_zfs_passphrase _ mp).
    - erewrite bind_ok by (rewrite zfs_command_eq, Hcmd; reflexivity).
      rewrite after_after. cbn [app] in *. rewrite Hk, after_after. done.
    - erewrite bind_ok by reflexivity. cbn [app] in *.
      rewrite Hk, after_after. done. }
  assert (Hpre :
    mount_zfs env inp root p st
    = (zfs_command env ["zpool"; "import"; "-N"; "-R"; root; poolName z]
                   "Failed to import zpool" ;;;
       match find_zfs_passphrase (default [] (gs_zfsInfo inp)) mp with
       | Some _ => zfs_command env ["zfs"; "load-key"; poolName z]
                               "Failed to unlock zpool"
       | None => ret tt
       end ;;;
       if (mp =? "/")%string then
         match gs_zfsDatasets inp with
         | None | Some [] =>
             raise (ZfsException "Internal error mounting zfs datasets")
         | Some zfs =>
             for_each (sort_by_key zd_mountpoint zfs) (fun dataset =>
               if can_mount dataset then
                 zfs_command env
                   ["zfs"; "mount"; zpool dataset ++ "/" ++ zd_dsName dataset]
                   "Failed to set zfs mountpoint"
               else ret tt)
         end
       else
         zfs_command env ["zfs"; "mount"; poolName z ++ "/" ++ dsName z]
                     "Failed to set zfs mountpoint") st).
  { pose proof (find_zfs_pool_last before z later mp Hz Hlater) as Hfind.
    destruct (before ++ z :: later)%list as [|z0 pools] eqn:Epools.
    { by destruct before. }
    unfold mount_zfs. rewrite Hinfo, Hmp.
    erewrite bind_ok by reflexivity. rewrite Hfind.
    reflexivity. }
  rewrite Hpre. split.
  - intros Hne. apply String.eqb_neq in Hne. rewrite Hne.
    apply Hstart. rewrite zfs_command_eq, Hcmd. reflexivity.
  - intros datasets -> Hds Hnonempty. rewrite String.eqb_refl, Hds.
    destruct datasets as [|d l]; [done|].
    apply Hstart. by rewrite zfs_dataset_loop.
Qed.

(** ** Btrfs subvolumes *)

Section Subvolumes.
Context (env : Env) (inp : Inputs).

Lemma err_bind_raises {A B} msg (k : A -> M B) st :
  exists st', bind (err env msg) k st = (Raise (Exception msg), st').
Proof.
  destruct (@err_outcome env A msg st) as (evs & E & _).
  eexists. by rewrite (bind_raise _ _ _ _ _ E).
Qed.

Lemma err_raises_at {A} msg st :
  exists st', @err env A msg st = (Raise (Exception msg), st').
Proof. destruct (@err_outcome env A msg st) as (evs & E & _). eauto. Qed.

Lemma bind_assoc {A B C} (c : M A) (k : A -> M B) (h : B -> M C) st :
  bind (bind c k) h st = bind c (fun a => bind (k a) h) st.
Proof. unfold bind. by destruct (c st) as [[a|e] st1]. Qed.

Lemma mount_subvolumes_ok root dev fstype opts l st :
  fst (mount_subvolumes env root dev fstype opts l st) = Ok tt ->
  mount_options_list (snd (mount_subvolumes env root dev fstype opts l st))
  = (mount_options_list st
     ++ map (subvolume_entry opts)
            (filter (fun s => is_root_subvolume s = false) l))%list
  /\ Forall (fun s =>
       is_root_subvolume s = false ->
       subvolume s <> ""
       /\ EvMount dev (root ++ sv_mountPoint s) fstype
                  ("subvol=" ++ subvolume s ++ "," ++ opts) 0
          ∈ trace (snd (mount_subvolumes env root dev fstype opts l st))) l.
Proof.
  revert st. induction l as [|s l IH]; intros st.
  - intros _. cbn. by rewrite app_nil_r.
  - unfold mount_subvolumes. cbn [for_each]. fold (mount_subvolumes env root dev fstype opts l).
    destruct (sv_mountPoint s =? "/")%string eqn:Hroot.
    + erewrite bind_ok by reflexivity. intros H.
      destruct (IH _ H) as [Hm Hf].
      rewrite filter_cons_False by (unfold is_root_subvolume; by rewrite Hroot).
      split; [exact Hm|].
      constructor; [unfold is_root_subvolume; by rewrite Hroot|exact Hf].
    + rewrite filter_cons_True by exact Hroot.
      rewrite bind_assoc.
      destruct (String.eqb_spec (subvolume s) "") as [Hempty|Hname]; cbn [negb].
      { destruct (@err_outcome env string "subvolume not defined" st)
          as (evs & E & _).
        erewrite bind_raise by exact E. done. }
      erewrite bind_ok by reflexivity.
      rewrite bind_assoc.
      destruct (makedirs_ok env (trace st) (root ++ sv_mountPoint s)) eqn:Hmk.
      2:{ erewrite bind_raise; [|rewrite makedirs_eq, Hmk; reflexivity]. done. }
      erewrite bind_ok by (rewrite makedirs_eq, Hmk; reflexivity).
      rewrite bind_assoc.
      erewrite bind_ok by apply mount_eq.
      destruct (_ =? 0) eqn:Hrc.
      2:{ match goal with |- context [err env ?m] =>
            match goal with |- context [bind _ _ ?s] =>
              destruct (@err_outcome env unit m s) as (evs & E & _)
            end
          end.
          erewrite bind_raise by exact E. done. }
      apply Z.eqb_eq in Hrc.
      erewrite bind_ok by reflexivity. intros H.
      match type of H with
      | fst (mount_subvolumes _ _ _ _ _ _ ?s1) = _ =>
          destruct (IH s1 H) as [Hm Hf];
          destruct (mount_subvolumes_follow env root dev fstype opts l s1)
            as (new & _ & Hpre & _)
      end.
      split.
      * rewrite Hm. cbn [mount_options_list after map].
        by rewrite <- app_assoc.
      * constructor; [|exact Hf]. intros _. split; [done|].
        destruct Hpre as [evs ->]. apply elem_of_app. left.
        cbn [trace after] in Hrc |- *. apply elem_of_app. right.
        rewrite Hrc. by left.
Qed.

Lemma create_subvolumes_present d l st :
  Forall (fun s => subvolume s = ""
                   \/ path_exists env (trace st) (d ++ subvolume s) = true) l ->
  create_subvolumes env d l st = (Ok tt, st).
Proof.
  induction 1 as [|s l Hs _ IH]; [done|].
  unfold create_subvolumes. cbn [for_each].
  fold (create_subvolumes env d l).
  destruct (String.eqb_spec (subvolume s) "") as [He|Hne].
  - by erewrite bind_ok by reflexivity.
  - destruct Hs as [?|Hs]; [done|].
    rewrite bind_assoc. unfold os_path_exists.
    erewrite bind_ok by reflexivity.
    rewrite Hs. by erewrite bind_ok by reflexivity.
Qed.
End Subvolumes.

(** Property X17. When the loop over the subvolumes returns normally,
    every subvolume other than the root one has a name, was mounted below
    the root with [subvol=<name>,<options>], and the options list has
    grown by one entry for each of them, in order, holding the options
    without the [subvol=] part. *)
Theorem mount_subvolumes_success (env : Env) (root dev fstype opts : string)
    (l : list Subvolume) (st : State) :
  let x := mount_subvolumes env root dev fstype opts l st in
  fst x = Ok tt ->
  mount_options_list (snd x)
  = (mount_options_list st
     ++ map (subvolume_entry opts)
            (filter (fun s => is_root_subvolume s = false) l))%list
  /\ Forall (fun s =>
       is_root_subvolume s = false ->
       subvolume s <> ""
       /\ EvMount dev (root ++ sv_mountPoint s) fstype
                  ("subvol=" ++ subvolume s ++ "," ++ opts) 0
          ∈ trace (snd x)) l.
Proof. intros x. apply mount_subvolumes_ok. Qed.

(** Property X18. Creating the subvolumes does nothing, no command
    included, when every subvolume with a name exists already below the
    scratch directory. *)
Theorem create_subvolumes_idempotent (env : Env) (setup_dir : string)
    (l : list Subvolume) (st : State) :
  Forall (fun s => subvolume s = ""
                   \/ path_exists env (trace st) (setup_dir ++ subvolume s)
                      = true) l ->
  create_subvolumes env setup_dir l st = (Ok tt, st).
Proof. apply create_subvolumes_present. Qed.

Global Instance keeps_options_preorder : PreOrder keeps_options.
Proof.
  split.
  - intros s. by split.
  - intros s1 s2 s3 [M1 T1] [M2 T2]. split; [congruence|by etrans].
Qed.

Lemma acts_keep_options {A} (c : M A) :
  respects only_acts c -> respects keeps_options c.
Proof.
  apply respects_weaken. intros s s' [Hs Ht].
  unfold stores in Hs. injection Hs as _ Hm _. by split.
Qed.

Lemma quiet_keeps_options {A} (c : M A) :
  (forall st, mount_options_list (snd (c st)) = mount_options_list st
              /\ trace (snd (c st)) = trace st) ->
  respects keeps_options c.
Proof. intros H st. destruct (H st) as [Hm Ht]. split; [done|by rewrite Ht]. Qed.

Section BtrfsRoot.
Context (env : Env) (inp : Inputs).

Lemma get_btrfs_subvolumes_keeps_options ps :
  respects keeps_options (get_btrfs_subvolumes inp ps).
Proof.
  unfold get_btrfs_subvolumes. respects_auto.
  apply quiet_keeps_options; intros ?; split; reflexivity.
Qed.

Lemma get_btrfs_subvolumes_returns ps st :
  exists subvols st0, get_btrfs_subvolumes inp ps st = (Ok subvols, st0).
Proof.
  unfold get_btrfs_subvolumes. destruct (swap_is_file inp); eauto.
Qed.

Lemma scratch_block_keeps_options dev fstype l :
  respects keeps_options
    (with_TemporaryDirectory env "calam-btrfs-" (fun setup_dir =>
       am_append setup_dir ;;;
       let* rc := mount env dev setup_dir fstype "defaults" in
       (if negb (rc =? 0)
        then err env ("Cannot mount btrfs for subvolume creation " ++ dev)
        else ret tt) ;;;
       try_finally (create_subvolumes env setup_dir l)
                   (release_setup_dir env setup_dir))).
Proof.
  unfold with_TemporaryDirectory, release_setup_dir, os_path_ismount.
  respects_auto;
    first [ apply acts_keep_options; solve [eauto with acts]
          | apply quiet_keeps_options; intros ?; split; reflexivity ].
Qed.

Lemma mount_btrfs_root_ok root dev fstype opts ps st :
  fst (mount_btrfs_root env inp root dev fstype opts ps st) = Ok tt ->
  exists subvols st0 s,
    get_btrfs_subvolumes inp ps st = (Ok subvols, st0)
    /\ find (fun s => (sv_mountPoint s =? "/")%string) subvols = Some s
    /\ subvolume s <> ""
    /\ EvMount dev root fstype ("subvol=" ++ subvolume s ++ "," ++ opts) 0
       ∈ trace (snd (mount_btrfs_root env inp root dev fstype opts ps st))
    /\ mount_options_list
         (snd (mount_btrfs_root env inp root dev fstype opts ps st))
       = (mount_options_list st
          ++ map (subvolume_entry opts)
                 (filter (fun s => is_root_subvolume s = false) subvols))%list.
Proof.
  destruct (get_btrfs_subvolumes_returns ps st) as (subvols & st0 & Eg).
  pose proof (get_btrfs_subvolumes_keeps_options ps st) as [Hm0 _].
  rewrite Eg in Hm0. cbn [snd] in Hm0.
  unfold mount_btrfs_root.
  erewrite bind_ok by exact Eg.
  erewrite bind_ok by reflexivity.
  match goal with
  | |- context [bind ?b _ ?s1] =>
      pose proof (scratch_block_keeps_options dev fstype subvols s1) as [Hm1 _];
      destruct (b s1) as [[[]|e] s2] eqn:Eb
  end.
  2:{ erewrite bind_raise by exact Eb. done. }
  erewrite bind_ok by exact Eb. cbn [snd mount_options_list] in Hm1.
  destruct (find _ subvols) as [s|] eqn:Hfind.
  2:{ destruct (@err_outcome env Subvolume
                  "Btrfs root subvolume (/) not found!" s2) as (evs & E & _).
      erewrite bind_raise by exact E. done. }
  erewrite bind_ok by reflexivity.
  destruct (String.eqb_spec (subvolume s) "") as [Hempty|Hname]; cbn [negb].
  { destruct (@err_outcome env string "root subvolume not defined" s2)
      as (evs & E & _).
    erewrite bind_raise by exact E. done. }
  erewrite bind_ok by reflexivity.
  erewrite bind_ok by apply mount_eq.
  destruct (_ =? 0) eqn:Hrc; cbn [negb].
  2:{ match goal with |- context [bind (err env ?m) _ ?s] =>
        destruct (@err_outcome env unit m s) as (evs & E & _)
      end.
      erewrite bind_raise by exact E. done. }
  apply Z.eqb_eq in Hrc.
  erewrite bind_ok by reflexivity. intros H.
  exists subvols, st0, s. split; [done|]. split; [done|]. split; [done|].
  match type of H with
  | fst (mount_subvolumes _ _ _ _ _ _ ?s3) = _ =>
      destruct (mount_subvolumes_ok env root dev fstype opts subvols s3 H)
        as [Hm _];
      destruct (mount_subvolumes_follow env root dev fstype opts subvols s3)
        as (new & _ & Hpre & _)
  end.
  split.
  - destruct Hpre as [evs ->]. apply elem_of_app. left.
    cbn [trace after]. apply elem_of_app. right. rewrite Hrc. by left.
  - rewrite Hm. cbn [mount_options_list after]. by rewrite Hm1, Hm0.
Qed.
End BtrfsRoot.

(** Property X19. When the Btrfs root protocol returns normally, the
    planned layout has an entry for [/] with a name, the first such entry
    is the one mounted at the root with [subvol=<name>,<options>], and
    the options list has grown by the entries of the other planned
    subvolumes and nothing else. *)
Theorem mount_btrfs_root_success (env : Env) (inp : Inputs)
    (root dev fstype opts : string) (ps : list Partition) (st : State) :
  let x := mount_btrfs_root env inp root dev fstype opts ps st in
  fst x = Ok tt ->
  exists subvols st0 s,
    get_btrfs_subvolumes inp ps st = (Ok subvols, st0)
    /\ find (fun s => (sv_mountPoint s =? "/")%string) subvols = Some s
    /\ subvolume s <> ""
    /\ EvMount dev root fstype ("subvol=" ++ subvolume s ++ "," ++ opts) 0
       ∈ trace (snd x)
    /\ mount_options_list (snd x)
       = (mount_options_list st
          ++ map (subvolume_entry opts)
                 (filter (fun s => is_root_subvolume s = false) subvols))%list.
Proof. intros x. apply mount_btrfs_root_ok. Qed.

Lemma get_mount_options_no_efi env k rules p :
  exists o, get_mount_options env k rules p None = Ok o.
Proof.
  unfold get_mount_options.
  destruct (options p); [eauto|]. destruct rules as [rules|]; [|eauto].
  cbn [truthy].
  destruct (find_rule rules k) as [r|]; [|destruct (find_rule rules "default")];
    try destruct (_ ++ _)%list; eauto.
Qed.

Lemma mounted_targets_app tr tr' :
  mounted_targets (tr ++ tr') = (mounted_targets tr ++ mounted_targets tr')%list.
Proof. unfold mounted_targets. apply omap_app. Qed.

Section BtrfsSwapFacts.
Context (env : Env) (inp : Inputs).

Lemma btrfs_swap_loop swap_subvol has_swap swap_options root dev fstype opts
    l st r st' :
  for_each l (btrfs_swap_round env swap_subvol has_swap swap_options
                               root dev fstype opts) st = (r, st') ->
  (forall e, r = Raise e ->
     exists s, s ∈ l /\ e = OSError (root ++ sv_mountPoint s))
  /\ active_mounts st' = active_mounts st
  /\ exists evs new,
       trace st' = (trace st ++ evs)%list
       /\ mount_options_list st' = (mount_options_list st ++ new)%list
       /\ map (fun e => root ++ mountpoint e) new = mounted_targets evs
       /\ Forall (fun e => option_string e = opts) new.
Proof.
  revert st. induction l as [|s l IH]; intros st.
  { intros [= <- <-]. split; [done|]. split; [done|]. exists [], [].
    by rewrite !app_nil_r. }
  cbn [for_each]. unfold btrfs_swap_round at 1.
  destruct (sv_mountPoint s =? "/")%string eqn:Hroot.
  - erewrite bind_ok by reflexivity. intros E.
    destruct (IH _ E) as (Hr & Ha & evs & new & Ht & Hm & Hn & Ho).
    cbn [trace active_mounts mount_options_list after] in Ha, Ht, Hm.
    split.
    { intros e He. destruct (Hr e He) as (s' & ? & ?). exists s'.
      split; [by right|done]. }
    split; [exact Ha|]. by exists evs, new.
  - cbv zeta. rewrite bind_assoc.
    destruct (makedirs_ok env (trace st) (root ++ sv_mountPoint s)) eqn:Hmk.
    2:{ erewrite bind_raise; [|rewrite makedirs_eq, Hmk; reflexivity].
        intros [= <- <-]. split.
        { intros e [= <-]. exists s. split; [by left|done]. }
        split; [done|]. exists [EvMakedirs (root ++ sv_mountPoint s) false], [].
        cbn. by rewrite app_nil_r. }
    erewrite bind_ok by (rewrite makedirs_eq, Hmk; reflexivity).
    rewrite bind_assoc. erewrite bind_ok by apply mount_eq.
    match goal with |- context [mount_rc env ?tr ?d ?t ?f ?o] =>
      set (rc := mount_rc env tr d t f o)
    end.
    destruct (rc =? 0) eqn:Hrc; erewrite bind_ok by reflexivity; intros E;
      destruct (IH _ E) as (Hr & Ha & evs & new & Ht & Hm & Hn & Ho);
      cbn [trace active_mounts mount_options_list after] in Ha, Ht, Hm;
      (split;
       [intros e He; destruct (Hr e He) as (s' & ? & ?); exists s';
        split; [by right|done]|]);
      (split; [exact Ha|]).
    + eexists (_ :: _ :: evs)%list,
              ({| mountpoint := sv_mountPoint s; option_string := opts |}
                 :: new).
      rewrite Ht, Hm.
      rewrite <- !app_assoc. split; [reflexivity|]. split; [done|].
      split; [|by constructor].
      cbn [map mountpoint]. rewrite Hn.
      match goal with |- context [(?a :: ?b :: evs)%list] =>
        change (a :: b :: evs)%list with ([a; b] ++ evs)%list
      end.
      rewrite mounted_targets_app. cbn. fold rc. by rewrite Hrc.
    + eexists (_ :: _ :: evs)%list, new.
      rewrite Ht, Hm.
      rewrite <- !app_assoc. split; [reflexivity|]. split; [done|].
      split; [|done]. rewrite Hn.
      match goal with |- context [(?a :: ?b :: evs)%list] =>
        change (a :: b :: evs)%list with ([a; b] ++ evs)%list
      end.
      rewrite mounted_targets_app. cbn. fold rc. by rewrite Hrc.
Qed.

Lemma btrfs_swap_prologue rules p root dev fstype opts l st :
  exists swap_options,
    btrfs_swap env inp rules p root dev fstype opts l st
    = for_each l (btrfs_swap_round env (swap_subvol_name inp)
                    (existsb (fun s => (subvolume s =? swap_subvol_name inp)%string) l)
                    swap_options root dev fstype opts) st
    /\ swap_options
       = if existsb (fun s => (subvolume s =? swap_subvol_name inp)%string) l
         then match get_mount_options env "btrfs_swap" rules p None with
              | Ok o => Some o
              | Raise _ => None
              end
         else None.
Proof.
  unfold btrfs_swap. cbv zeta.
  destruct (existsb _ l) eqn:Hs.
  - destruct (get_mount_options_no_efi env "btrfs_swap" rules p) as [o Ho].
    rewrite Ho. exists (Some o). split; [|done].
    by erewrite bind_ok by reflexivity.
  - exists None. split; [|done]. by erewrite bind_ok by reflexivity.
Qed.

Lemma btrfs_swap_round_agrees swap_subvol swap_options root dev fstype opts
    l st :
  fst (mount_subvolumes env root dev fstype opts l st) = Ok tt ->
  for_each l (btrfs_swap_round env swap_subvol false swap_options
                               root dev fstype opts) st
  = mount_subvolumes env root dev fstype opts l st.
Proof.
  revert st. induction l as [|s l IH]; intros st; [done|].
  unfold mount_subvolumes. cbn [for_each].
  fold (mount_subvolumes env root dev fstype opts l).
  unfold btrfs_swap_round at 1.
  destruct (sv_mountPoint s =? "/")%string eqn:Hroot.
  - erewrite !bind_ok by reflexivity. apply IH.
  - cbv zeta. cbn [andb]. unfold format_str, default. cbn [from_option id].
    rewrite !bind_assoc.
    destruct (String.eqb_spec (subvolume s) "") as [Hempty|Hname]; cbn [negb].
    { destruct (@err_outcome env string "subvolume not defined" st)
        as (evs & E & _).
      erewrite (bind_raise (err env _)) by exact E. done. }
    erewrite (bind_ok (ret _)) by reflexivity.
    rewrite bind_assoc.
    destruct (makedirs_ok env (trace st) (root ++ sv_mountPoint s)) eqn:Hmk.
    2:{ erewrite !(bind_raise (makedirs _ _))
          by (rewrite makedirs_eq, Hmk; reflexivity).
        done. }
    erewrite !(bind_ok (makedirs _ _))
      by (rewrite makedirs_eq, Hmk; reflexivity).
    rewrite !bind_assoc.
    erewrite !(bind_ok (mount _ _ _ _ _)) by apply mount_eq.
    destruct (_ =? 0) eqn:Hrc.
    + erewrite !(bind_ok (mol_append _)) by reflexivity. apply IH.
    + match goal with |- context [bind (err env ?m) _ ?s] =>
        destruct (@err_outcome env unit m s) as (evs & E & _)
      end.
      erewrite (bind_raise (err env _)) by exact E. done.
Qed.
End BtrfsSwapFacts.

(** Property X20. The subvolume loop of [btrfs_swap.py] goes on after a
    mount that fails: it can be left only by a directory that cannot be
    created, it leaves the ledger alone, and what it adds to the options
    list is, in order, one entry for each mount that succeeded, each with
    the options of the partition, also for the swap subvolume. *)
Theorem btrfs_swap_tolerates_failed_mounts (env : Env) (inp : Inputs)
    (rules : option (list MountOptionRule)) (p : Partition)
    (root dev fstype opts : string) (l : list Subvolume) (st : State) :
  let x := btrfs_swap env inp rules p root dev fstype opts l st in
  (forall e, fst x = Raise e ->
     exists s, s ∈ l /\ e = OSError (root ++ sv_mountPoint s))
  /\ active_mounts (snd x) = active_mounts st
  /\ exists evs new,
       trace (snd x) = (trace st ++ evs)%list
       /\ mount_options_list (snd x) = (mount_options_list st ++ new)%list
       /\ map (fun e => root ++ mountpoint e) new = mounted_targets evs
       /\ Forall (fun e => option_string e = opts) new.
Proof.
  destruct (btrfs_swap_prologue env inp rules p root dev fstype opts l st)
    as (so & -> & _).
  intros x. destruct x as [r st'] eqn:E. eapply btrfs_swap_loop, E.
Qed.

(** Property X21. When no planned subvolume is the swap subvolume and
    the loop of the mount module returns normally, the loop of
    [btrfs_swap.py] does exactly the same. *)
Theorem btrfs_swap_agrees_with_mount_subvolumes (env : Env) (inp : Inputs)
    (rules : option (list MountOptionRule)) (p : Partition)
    (root dev fstype opts : string) (l : list Subvolume) (st : State) :
  existsb (fun s => (subvolume s =? swap_subvol_name inp)%string) l = false ->
  fst (mount_subvolumes env root dev fstype opts l st) = Ok tt ->
  btrfs_swap env inp rules p root dev fstype opts l st
  = mount_subvolumes env root dev fstype opts l st.
Proof.
  intros Hs Hok.
  destruct (btrfs_swap_prologue env inp rules p root dev fstype opts l st)
    as (so & -> & _).
  rewrite Hs. by apply btrfs_swap_round_agrees.
Qed.

(** [/dev/sda12] is on the disk [sda]. *)
Lemma disk_name_strips_partition_number_witness :
  disk_name_for_partition (Scenario.partition "/dev/sda12" "ext4" "/")
  = Ok "sda".
Proof.
  apply (disk_name_strips_partition_number
           (Scenario.partition "/dev/sda12" "ext4" "/") "/dev/sda12"
           "sda" "12"); try reflexivity.
  repeat constructor.
Defined.

(** [/dev/nvme0n1p2] is on the disk [nvme0n1]. *)
Lemma disk_name_strips_p_suffix_witness :
  disk_name_for_partition (Scenario.partition "/dev/nvme0n1p2" "ext4" "/")
  = Ok "nvme0n1".
Proof.
  apply (proj1 (disk_name_strips_p_suffix
                  (Scenario.partition "/dev/nvme0n1p2" "ext4" "/")
                  "/dev/nvme0n1p2" eq_refl eq_refl) "nvme0n1" "2").
  - reflexivity.
  - repeat constructor.
  - discriminate.
Defined.

(** [/] is sorted before [/home]. *)
Lemma parent_mount_point_comes_first_witness :
  sort_by_key mountPoint_key
    [Scenario.partition "/dev/sda2" "ext4" "/home";
     Scenario.partition "/dev/sda1" "ext4" "/"] !! 0%nat
  = Some (Scenario.partition "/dev/sda1" "ext4" "/")
  /\ (0 < 1)%nat.
Proof.
  split; [reflexivity|].
  apply (parent_mount_point_comes_first
           [Scenario.partition "/dev/sda2" "ext4" "/home";
            Scenario.partition "/dev/sda1" "ext4" "/"] 0 1
           (Scenario.partition "/dev/sda1" "ext4" "/")
           (Scenario.partition "/dev/sda2" "ext4" "/home") "home").
  - reflexivity.
  - reflexivity.
  - reflexivity.
  - discriminate.
Defined.

(** A FAT partition at the EFI location gets the options of the [efi] rule. *)
Lemma efi_partition_uses_efi_rule_witness :
  get_mount_options (Scenario.kernel [] []) "vfat"
    (Some [ScenarioRules.btrfs_rule; ScenarioMore.efi_rule])
    (Scenario.partition "/dev/sda1" "vfat" "/boot/efi") (Some "/boot/efi")
  = Ok "umask=0077".
Proof.
  rewrite (efi_partition_uses_efi_rule (Scenario.kernel [] []) "vfat"
             (Some [ScenarioRules.btrfs_rule; ScenarioMore.efi_rule])
             (Scenario.partition "/dev/sda1" "vfat" "/boot/efi")
             (Some "/boot/efi") eq_refl eq_refl).
  reflexivity.
Defined.

(** Swap on LUKS2 is enabled through its mapper device. *)
Lemma swap_devices_claimed_only_witness :
  exists p,
    p ∈ [Scenario.partition "/dev/sda1" "ext4" "/"; ScenarioMore.luks_swap]
    /\ enabled_swap p "/dev/mapper/luks-swap".
Proof.
  apply (swap_devices_claimed_only
           [Scenario.partition "/dev/sda1" "ext4" "/"; ScenarioMore.luks_swap]
           ["/dev/mapper/luks-swap"]).
  - reflexivity.
  - apply list_elem_of_In. left. reflexivity.
Defined.


(** A partition without [fs] beside a root partition. *)
Lemma run_missing_fs_key_witness :
  run (Scenario.kernel [] [])
      (Scenario.inputs [Scenario.partition "/dev/sda1" "ext4" "/";
                        Scenario.bind_mount "/dev/sdb1" "/data"] [])
      initial_state
  = (Raise (KeyError "fs"), initial_state).
Proof.
  apply (run_missing_fs_key (Scenario.kernel [] [])
           (Scenario.inputs [Scenario.partition "/dev/sda1" "ext4" "/";
                             Scenario.bind_mount "/dev/sdb1" "/data"] [])
           initial_state
           [Scenario.partition "/dev/sda1" "ext4" "/";
            Scenario.bind_mount "/dev/sdb1" "/data"]).
  - reflexivity.
  - exists (Scenario.bind_mount "/dev/sdb1" "/data"). split; [|reflexivity].
    apply list_elem_of_In. right. left. reflexivity.
Defined.

(** Without EFI firmware and without [efi] marks, both extra mounts are published. *)
Lemma run_success_publishes_witness :
  globalstorage (snd (run (Scenario.kernel [] []) ScenarioMore.desktop
                          initial_state)) !! "extraMounts"
  = Some (GSPartitions [Scenario.bind_mount "/dev" "/dev";
                        Scenario.partition "proc" "proc" "/proc"]).
Proof.
  refine (proj1 (run_success_publishes (Scenario.kernel [] [])
                   ScenarioMore.desktop initial_state _)).
  vm_compute. reflexivity.
Defined.

(** Two partitions and two extra mounts: [/], [/home], [/dev], [/proc]. *)
Lemma run_success_ledger_witness :
  exists root,
    globalstorage (snd (run (Scenario.kernel [] []) ScenarioMore.desktop
                            initial_state)) !! "rootMountPoint"
    = Some (GSString root)
    /\ active_mounts (snd (run (Scenario.kernel [] []) ScenarioMore.desktop
                               initial_state))
       = map (target_path root)
           [Scenario.partition "/dev/sda1" "ext4" "/";
            Scenario.partition "/dev/sda2" "ext4" "/home";
            Scenario.bind_mount "/dev" "/dev";
            Scenario.partition "proc" "proc" "/proc"].
Proof.
  refine (run_success_ledger (Scenario.kernel [] []) ScenarioMore.desktop
            initial_state
            [Scenario.partition "/dev/sda2" "ext4" "/home";
             Scenario.partition "/dev/sda1" "ext4" "/"] eq_refl _ _).
  - intros tr tr' suffix H. vm_compute in H. discriminate H.
  - vm_compute. reflexivity.
Defined.

(** An encrypted [/home] is mounted from its mapper device. *)
Lemma direct_mount_witness :
  mount_partition (Scenario.kernel [] []) ScenarioMore.desktop
    Scenario.root ScenarioMore.luks_home [] None None initial_state
  = (Ok tt,
     after (with_options_entry
              (prepared (Scenario.kernel [] []) initial_state Scenario.root
                        "/home")
              {| mountpoint := "/home"; option_string := "defaults" |})
           [EvMount "/dev/mapper/luks-home" "/tmp/calamares-root-x/home"
                    "ext4" "defaults" 0]).
Proof.
  refine (direct_mount (Scenario.kernel [] []) ScenarioMore.desktop
            Scenario.root ScenarioMore.luks_home [] None None initial_state
            "/home" "/dev/sda2" "defaults" eq_refl _ eq_refl _ _ _ _ _
            eq_refl eq_refl).
  - discriminate.
  - intros name [= <-]. reflexivity.
  - discriminate.
  - discriminate.
  - discriminate.
  - discriminate.
Defined.

(** Without pool information the internal error is raised. *)
Lemma mount_zfs_failures_witness :
  zfs_failure (ZfsException "Internal error mounting zfs datasets")
  \/ ZfsException "Internal error mounting zfs datasets"
     = UnboundLocalError "pool_name"
  \/ ZfsException "Internal error mounting zfs datasets"
     = KeyError "mountPoint".
Proof.
  apply (mount_zfs_failures (Scenario.kernel [] []) (Scenario.inputs [] [])
           Scenario.root (Scenario.partition "/dev/sda1" "zfs" "/data")
           initial_state).
  reflexivity.
Defined.

(** An encrypted pool for [/data]: import, load the key, mount. *)
Lemma mount_zfs_commands_witness :
  mount_zfs (Scenario.kernel [] []) ScenarioMore.encrypted_pool Scenario.root
    (Scenario.partition "/dev/sda1" "zfs" "/data") initial_state
  = (Ok tt,
     after initial_state
       [zpool_import Scenario.root "zpcala"; zfs_load_key "zpcala";
        zfs_mount "zpcala" "data"]).
Proof.
  refine (proj1 (mount_zfs_commands (Scenario.kernel [] [])
                   ScenarioMore.encrypted_pool Scenario.root
                   (Scenario.partition "/dev/sda1" "zfs" "/data")
                   initial_state [] []
                   {| zp_mountpoint := "/data"; poolName := "zpcala";
                      dsName := "data" |} "/data"
                   _ eq_refl eq_refl eq_refl _) _).
  - reflexivity.
  - constructor.
  - discriminate.
Defined.

(** The default layout adds the entry for [/home]. *)
Lemma mount_subvolumes_success_witness :
  mount_options_list
    (snd (mount_subvolumes (Scenario.kernel [] []) Scenario.root "/dev/sda1"
            "btrfs" "noatime" default_btrfs_subvolumes initial_state))
  = [ {| mountpoint := "/home"; option_string := "noatime" |} ].
Proof.
  refine (proj1 (mount_subvolumes_success (Scenario.kernel [] [])
                   Scenario.root "/dev/sda1" "btrfs" "noatime"
                   default_btrfs_subvolumes initial_state _)).
  vm_compute. reflexivity.
Defined.

(** The default layout, already present. *)
Lemma create_subvolumes_idempotent_witness :
  create_subvolumes ScenarioMore.installed "/tmp/calam-btrfs-x"
    default_btrfs_subvolumes initial_state
  = (Ok tt, initial_state).
Proof.
  apply (create_subvolumes_idempotent ScenarioMore.installed
           "/tmp/calam-btrfs-x" default_btrfs_subvolumes initial_state).
  repeat constructor; right; reflexivity.
Defined.

(** A Btrfs root with the default layout. *)
Lemma mount_btrfs_root_success_witness :
  exists subvols st0 s,
    get_btrfs_subvolumes (Scenario.inputs [] [])
      [Scenario.partition "/dev/sda1" "btrfs" "/"] initial_state
    = (Ok subvols, st0)
    /\ find (fun s => (sv_mountPoint s =? "/")%string) subvols = Some s
    /\ subvolume s <> ""
    /\ EvMount "/dev/sda1" Scenario.root "btrfs"
               ("subvol=" ++ subvolume s ++ "," ++ "noatime") 0
       ∈ trace (snd (mount_btrfs_root (Scenario.kernel [] [])
                       (Scenario.inputs [] []) Scenario.root "/dev/sda1"
                       "btrfs" "noatime"
                       [Scenario.partition "/dev/sda1" "btrfs" "/"]
                       initial_state))
    /\ mount_options_list
         (snd (mount_btrfs_root (Scenario.kernel [] [])
                 (Scenario.inputs [] []) Scenario.root "/dev/sda1"
                 "btrfs" "noatime"
                 [Scenario.partition "/dev/sda1" "btrfs" "/"]
                 initial_state))
       = (mount_options_list initial_state
          ++ map (subvolume_entry "noatime")
                 (filter (fun s => is_root_subvolume s = false) subvols))%list.
Proof.
  apply (mount_btrfs_root_success (Scenario.kernel [] [])
           (Scenario.inputs [] []) Scenario.root "/dev/sda1" "btrfs"
           "noatime" [Scenario.partition "/dev/sda1" "btrfs" "/"]
           initial_state).
  vm_compute. reflexivity.
Defined.

(** The default layout has no swap subvolume. *)
Lemma btrfs_swap_agrees_with_mount_subvolumes_witness :
  btrfs_swap (Scenario.kernel [] []) (Scenario.inputs [] []) None
    (Scenario.partition "/dev/sda1" "btrfs" "/") Scenario.root "/dev/sda1"
    "btrfs" "noatime" default_btrfs_subvolumes initial_state
  = mount_subvolumes (Scenario.kernel [] []) Scenario.root "/dev/sda1"
      "btrfs" "noatime" default_btrfs_subvolumes initial_state.
Proof.
  apply (btrfs_swap_agrees_with_mount_subvolumes (Scenario.kernel [] [])
           (Scenario.inputs [] []) None
           (Scenario.partition "/dev/sda1" "btrfs" "/") Scenario.root
           "/dev/sda1" "btrfs" "noatime" default_btrfs_subvolumes
           initial_state).
  - reflexivity.
  - vm_compute. reflexivity.
Defined.
